(** * snowflake_client: the SnowflakeClient wrapper of [client.py]

    A shallow embedding of [src/snowflake_client/client.py].  The wrapped
    driver ([snowflake.connector]) is an external collaborator: it is modelled
    as an oracle that answers every call from the history of the calls made
    so far, so that a theorem quantified over all drivers covers every way
    the real driver can answer (return or raise) in a single-threaded run.

    The client object and the record of what happened (driver calls, method
    entries, log lines) are threaded through a small state-and-exception
    monad. *)

From stdpp Require Import gmap strings list fin_maps pretty.

(** ** Python values and truthiness *)

(** Values that travel through the wrapper untouched: query parameters and
    the cells of the rows the driver returns. *)
Inductive Value : Type :=
  | VNone
  | VInt (z : Z)
  | VStr (s : string).

(** A row as [DictCursor] returns it: column name to value. *)
Definition Row : Type := gmap string Value.

(** [if s:] for [s : Optional[str]]: [None] and the empty string are falsy.
    [truthy_str s] is [Some v] when the test passes on the string [v]. *)
Definition truthy_str (o : option string) : option string :=
  match o with
  | Some (String a s) => Some (String a s)
  | Some EmptyString => None
  | None => None
  end.

(** [if d:] for [d : Optional[Dict]]: [None] and the empty dict are falsy. *)
Definition truthy_dict {V : Type} (o : option (gmap string V)) : option (gmap string V) :=
  match o with
  | Some d => if decide (dom d = ∅) then None else Some d
  | None => None
  end.

(** ** The driver and what is observed of a run *)

(** Connection and cursor objects of the driver are opaque; they are told
    apart by a number, which only names the object.  As Python objects
    without [__bool__] or [__len__] they are always truthy, so
    [if self.connection:] tests exactly whether the attribute is [None]. *)
Definition Handle : Type := nat.
Definition Cursor : Type := nat.

(** An exception is carried as its message ([str(e)]), together with what
    decides whether [except Exception] catches it: it is an instance of
    [Exception], or one of the other instances of [BaseException]
    ([KeyboardInterrupt], [SystemExit], ...), which the driver can raise as
    well. *)
Inductive Exn : Type :=
  | exception (msg : string)
  | base_exception (msg : string).

(** [str(e)] *)
Definition str (e : Exn) : string :=
  match e with
  | exception msg => msg
  | base_exception msg => msg
  end.

(** [Exception("...")]: a message alone stands for an instance of
    [Exception]. *)
Coercion exception : string >-> Exn.

Inductive Res (A : Type) : Type :=
  | Ok (a : A)
  | Raise (e : Exn).
Arguments Ok {A} a.
Arguments Raise {A} e.

Definition is_ok {A : Type} (r : Res A) : bool :=
  match r with Ok _ => true | Raise _ => false end.

(** The six entry points of the driver that the wrapper uses. *)
Inductive DriverCall : Type :=
  | connector_connect (kwargs : gmap string string)
  | connection_close (h : Handle)
  | connection_cursor (h : Handle)
  | cursor_execute (c : Cursor) (text : string) (params : option (gmap string Value))
  | cursor_fetchall (c : Cursor)
  | cursor_close (c : Cursor).

(** The methods of [SnowflakeClient]; entering one is recorded, the way a
    spy on the object would. *)
Inductive Method : Type :=
  | m_connect
  | m_disconnect
  | m_execute_query
  | m_initialize_context
  | m_enter
  | m_exit.

#[global] Instance Method_eq_dec : EqDecision Method.
Proof. solve_decision. Defined.

(** What the module writes: [logger.info], [logger.error] and [print]. *)
Inductive Output : Type :=
  | log_info (msg : string)
  | log_error (msg : string)
  | print_params (params : gmap string Value)
  | print_line (msg : string).

Inductive Event : Type :=
  | Call (m : Method)
  | Drv (c : DriverCall)
  | Out (o : Output).

(** A driver answers a call from the calls it has received before. *)
Record Driver : Type := {
  on_connect : list DriverCall -> gmap string string -> Res Handle;
  on_connection_close : list DriverCall -> Handle -> Res unit;
  on_cursor : list DriverCall -> Handle -> Res Cursor;
  on_execute :
    list DriverCall -> Cursor -> string -> option (gmap string Value) -> Res unit;
  on_fetchall : list DriverCall -> Cursor -> Res (list Row);
  on_cursor_close : list DriverCall -> Cursor -> Res unit
}.

(** *** Reading a trace *)

Definition driver_calls (t : list Event) : list DriverCall :=
  omap (fun e => match e with Drv c => Some c | _ => None end) t.

(** The texts handed to [cursor.execute], in order. *)
Definition statements (t : list Event) : list string :=
  omap (fun e => match e with Drv (cursor_execute _ q _) => Some q | _ => None end) t.

(** How many times method [m] was entered. *)
Definition calls_of (m : Method) (t : list Event) : nat :=
  length (omap (fun e => match e with
                         | Call m' => if decide (m' = m) then Some m' else None
                         | _ => None
                         end) t).

(** How many times the driver's [connect] was called. *)
Definition driver_connects (t : list Event) : nat :=
  length (omap (fun c => match c with connector_connect k => Some k | _ => None end)
               (driver_calls t)).

(** How many times [close] was called on cursor [c]. *)
Definition cursor_closes (c : Cursor) (t : list Event) : nat :=
  length (omap (fun d => match d with
                         | cursor_close c' => if decide (c' = c) then Some c' else None
                         | _ => None
                         end) (driver_calls t)).

(** ** The client object and the world it runs in *)

Record SnowflakeClient : Type := {
  connection_params : gmap string string;
  connection : option Handle
}.

Record World : Type := {
  self : SnowflakeClient;
  trace : list Event
}.

(** The events of [w'] that were not yet in [w]. *)
Definition events_since (w w' : World) : list Event :=
  drop (length (trace w)) (trace w').

(** ** A state-and-exception monad *)

Definition M (A : Type) : Type := World -> Res A * World.

Definition ret {A : Type} (a : A) : M A := fun w => (Ok a, w).

Definition raise {A : Type} (e : Exn) : M A := fun w => (Raise e, w).

Definition bind {A B : Type} (m : M A) (k : A -> M B) : M B :=
  fun w =>
    match m w with
    | (Ok a, w') => k a w'
    | (Raise e, w') => (Raise e, w')
    end.

(** [try: m except Exception as e: handler e]: the clause catches the
    instances of [Exception] and lets every other exception through. *)
Definition try_except {A : Type} (m : M A) (handler : Exn -> M A) : M A :=
  fun w =>
    match m w with
    | (Ok a, w') => (Ok a, w')
    | (Raise (exception msg), w') => handler (exception msg) w'
    | (Raise (base_exception msg), w') => (Raise (base_exception msg), w')
    end.

Notation "x <- c1 ;; c2" := (bind c1 (fun x => c2))
  (at level 100, c1 at next level, right associativity).
Notation "c1 ;; c2" := (bind c1 (fun _ => c2))
  (at level 100, right associativity).

Definition record (e : Event) : M unit :=
  fun w => (Ok tt, {| self := self w; trace := trace w ++ [e] |}).

Definition get_connection : M (option Handle) :=
  fun w => (Ok (connection (self w)), w).

Definition get_connection_params : M (gmap string string) :=
  fun w => (Ok (connection_params (self w)), w).

(** [self.connection = c] *)
Definition set_connection (c : option Handle) : M unit :=
  fun w =>
    (Ok tt,
     {| self := {| connection_params := connection_params (self w); connection := c |};
        trace := trace w |}).

Definition logger_info (msg : string) : M unit := record (Out (log_info msg)).
Definition logger_error (msg : string) : M unit := record (Out (log_error msg)).

(** A call to the driver: it is recorded, and answered from the calls that
    came before it. *)
Definition driver_call {A : Type} (c : DriverCall)
    (answer : list DriverCall -> Res A) : M A :=
  fun w =>
    (answer (driver_calls (trace w)),
     {| self := self w; trace := trace w ++ [Drv c] |}).

(** ** [class SnowflakeClient] *)

(** [if value: params[key] = value] *)
Definition store_if_truthy (key : string) (value : option string)
    (params : gmap string string) : gmap string string :=
  match truthy_str value with
  | Some v => <[key := v]> params
  | None => params
  end.

(** [SnowflakeClient.__init__] (client.py, lines 13-50). *)
Definition __init__ (account user password : string)
    (warehouse database schema role : option string) : SnowflakeClient :=
  let params : gmap string string :=
    <["password" := password]> (<["user" := user]> (<["account" := account]> ∅)) in
  let params := store_if_truthy "warehouse" warehouse params in
  let params := store_if_truthy "database" database params in
  let params := store_if_truthy "schema" schema params in
  let params := store_if_truthy "role" role params in
  {| connection_params := params; connection := None |}.

Section Methods.

Variable drv : Driver.

(** [SnowflakeClient.connect] (lines 52-59). *)
Definition connect : M unit :=
  record (Call m_connect) ;;
  try_except
    (params <- get_connection_params ;;
     h <- driver_call (connector_connect params) (fun hist => on_connect drv hist params) ;;
     set_connection (Some h) ;;
     logger_info "Successfully connected to Snowflake")
    (fun e =>
       logger_error ("Failed to connect to Snowflake: " +:+ str e) ;;
       raise e).

(** [SnowflakeClient.disconnect] (lines 61-66). *)
Definition disconnect : M unit :=
  record (Call m_disconnect) ;;
  conn <- get_connection ;;
  match conn with
  | Some h =>
      driver_call (connection_close h) (fun hist => on_connection_close drv hist h) ;;
      set_connection None ;;
      logger_info "Disconnected from Snowflake"
  | None => ret tt
  end.

(** The [try] block of [execute_query] (lines 93-114): open a cursor,
    execute, fetch, close the cursor, return the rows. *)
Definition execute_and_fetch (query : string)
    (params : option (gmap string Value)) : M (list Row) :=
  try_except
    (conn <- get_connection ;;
     match conn with
     | None => raise "No connection to Snowflake"
     | Some h =>
         cursor <- driver_call (connection_cursor h) (fun hist => on_cursor drv hist h) ;;
         (match truthy_dict params with
          | Some p =>
              record (Out (print_params p)) ;;
              record (Out (print_line ("Query: " +:+ query))) ;;
              driver_call (cursor_execute cursor query (Some p))
                (fun hist => on_execute drv hist cursor query (Some p))
          | None =>
              driver_call (cursor_execute cursor query None)
                (fun hist => on_execute drv hist cursor query None)
          end) ;;
         results <- driver_call (cursor_fetchall cursor)
                      (fun hist => on_fetchall drv hist cursor) ;;
         driver_call (cursor_close cursor) (fun hist => on_cursor_close drv hist cursor) ;;
         logger_info ("Query executed successfully, returned "
                      +:+ pretty (length results) +:+ " rows") ;;
         ret results
     end)
    (fun e =>
       logger_error ("Failed to execute query: " +:+ str e) ;;
       raise e).

(** [SnowflakeClient.execute_query] (lines 68-114), with the method it
    calls on [self] for the context as a parameter. *)
Definition execute_query_with
    (self_initialize_context : option string -> option string -> M unit)
    (query : string) (params : option (gmap string Value))
    (init : option (gmap string string)) : M (list Row) :=
  record (Call m_execute_query) ;;
  conn <- get_connection ;;
  (match conn with
   | None => connect
   | Some _ => ret tt
   end) ;;
  (match truthy_dict init with
   | Some d => self_initialize_context (d !! "database") (d !! "schema")
   | None => ret tt
   end) ;;
  execute_and_fetch query params.

(** [SnowflakeClient.initialize_context] (lines 116-141), with the method
    it calls on [self] to run a statement as a parameter. *)
Definition initialize_context_with
    (self_execute_query : string -> M (list Row))
    (database schema : option string) : M unit :=
  record (Call m_initialize_context) ;;
  try_except
    ((match truthy_str database with
      | Some database =>
          let use_db_query := "USE DATABASE " +:+ database in
          self_execute_query use_db_query ;;
          logger_info ("Set database context to: " +:+ database)
      | None => ret tt
      end) ;;
     (match truthy_str schema with
      | Some schema =>
          let use_schema_query := "USE SCHEMA " +:+ schema in
          self_execute_query use_schema_query ;;
          logger_info ("Set schema context to: " +:+ schema)
      | None => ret tt
      end))
    (fun e =>
       logger_error ("Failed to initialize context: " +:+ str e) ;;
       raise e).

(** The two methods call each other.  [initialize_context] calls
    [execute_query] without [init], and such a call never reaches
    [initialize_context]: the recursion stops there. *)
Definition execute_query_no_init (query : string)
    (params : option (gmap string Value)) : M (list Row) :=
  execute_query_with (fun _ _ => ret tt) query params None.

Definition initialize_context : option string -> option string -> M unit :=
  initialize_context_with (fun q => execute_query_no_init q None).

Definition execute_query : string -> option (gmap string Value) ->
    option (gmap string string) -> M (list Row) :=
  execute_query_with initialize_context.

(** [SnowflakeClient.__enter__] (lines 143-146). *)
Definition __enter__ : M unit :=
  record (Call m_enter) ;;
  connect.

(** [SnowflakeClient.__exit__] (lines 148-150); it returns [None], so an
    exception of the body is not suppressed. *)
Definition __exit__ (exc : option Exn) : M unit :=
  record (Call m_exit) ;;
  disconnect.

(** [with client: body], as Python runs it: [__exit__] is called when the
    body returns and when it raises; since [__exit__] returns [None], the
    body's exception is then raised again. *)
Definition with_client {A : Type} (body : M A) : M A :=
  __enter__ ;;
  fun w =>
    match body w with
    | (Ok a, w') => (__exit__ None ;; ret a) w'
    | (Raise e, w') => (__exit__ (Some e) ;; raise e) w'
    end.

(** [create_database] (lines 188-190). *)
Definition create_database (database_name : string) : M unit :=
  execute_query ("CREATE DATABASE " +:+ database_name) None None ;;
  ret tt.

End Methods.

(** [create_snowflake_client_from_env] (lines 153-185); [environ] is
    [os.environ], and [os.getenv] is a lookup in it. *)
Definition create_snowflake_client_from_env (environ : gmap string string)
    : Res SnowflakeClient :=
  let account := environ !! "SNOWFLAKE_ACCOUNT" in
  let user := environ !! "SNOWFLAKE_USER" in
  let password := environ !! "SNOWFLAKE_PASSWORD" in
  let warehouse := environ !! "SNOWFLAKE_WAREHOUSE" in
  let role := environ !! "SNOWFLAKE_ROLE" in
  match truthy_str account with
  | None => Raise "SNOWFLAKE_ACCOUNT is not set"
  | Some account =>
      match truthy_str user with
      | None => Raise "SNOWFLAKE_USER is not set"
      | Some user =>
          match truthy_str password with
          | None => Raise "SNOWFLAKE_PASSWORD is not set"
          | Some password => Ok (__init__ account user password warehouse None None role)
          end
      end
  end.


(** The environment variables that [create_snowflake_client_from_env]
    looks up. *)
Definition read_variables : list string :=
  ["SNOWFLAKE_ACCOUNT"; "SNOWFLAKE_USER"; "SNOWFLAKE_PASSWORD";
   "SNOWFLAKE_WAREHOUSE"; "SNOWFLAKE_ROLE"].

(** ** Specifications of runs *)

(** [wp m w Q]: running [m] from [w] only adds events to the trace, and the
    result, the final world and the events added satisfy [Q]. *)
Definition wp {A : Type} (m : M A) (w : World)
    (Q : Res A -> World -> list Event -> Prop) : Prop :=
  exists d, trace (m w).2 = trace w ++ d /\ Q (m w).1 (m w).2 d.

(** The events [d] leave the client object as [s] was, make no call to
    [connect], and hand to [cursor.execute] the texts [stmts] in order: all
    of them when the run returns, the first few when it raises. *)
Definition issues {A : Type} (s : SnowflakeClient) (stmts : list string)
    (r : Res A) (w' : World) (d : list Event) : Prop :=
  self w' = s /\
  calls_of m_connect d = 0 /\
  driver_connects d = 0 /\
  statements d `prefix_of` stmts /\
  (is_ok r = true -> statements d = stmts).

(** [runs m w stmts]: from [w], the run of [m] is one that [issues] the
    statements [stmts] and leaves the client object as it was. *)
Definition runs {A : Type} (m : M A) (w : World) (stmts : list string) : Prop :=
  wp m w (issues (self w) stmts).

(** Entering a method other than [connect], a log line and a printed line
    are none of the events that [issues] counts. *)
Definition silent (e : Event) : Prop :=
  match e with
  | Call m => m <> m_connect
  | Drv _ => False
  | Out _ => True
  end.

(** The statements that set the context. *)
Definition use_statements (database schema : option string) : list string :=
  match truthy_str database with
  | Some db => ["USE DATABASE " +:+ db]
  | None => []
  end ++
  match truthy_str schema with
  | Some sc => ["USE SCHEMA " +:+ sc]
  | None => []
  end.

Definition context_statements (init : option (gmap string string)) : list string :=
  match truthy_dict init with
  | Some d => use_statements (d !! "database") (d !! "schema")
  | None => []
  end.

(** ** Drivers and clients to run the model on *)

(** A driver that answers every call: the handle or cursor returned by the
    n-th call is numbered n, and every query has no rows. *)
Definition answering_driver : Driver := {|
  on_connect := fun hist _ => Ok (S (length hist));
  on_connection_close := fun _ _ => Ok tt;
  on_cursor := fun hist _ => Ok (S (length hist));
  on_execute := fun _ _ _ _ => Ok tt;
  on_fetchall := fun _ _ => Ok [];
  on_cursor_close := fun _ _ => Ok tt
|}.

(** A driver that connects once: its first call returns a handle, and every
    later [connect] is refused. *)
Definition connect_once_driver : Driver := {|
  on_connect := fun hist _ =>
    match hist with
    | [] => Ok 1
    | _ :: _ => Raise "connection refused"
    end;
  on_connection_close := fun _ _ => Ok tt;
  on_cursor := fun hist _ => Ok (S (length hist));
  on_execute := fun _ _ _ _ => Ok tt;
  on_fetchall := fun _ _ => Ok [];
  on_cursor_close := fun _ _ => Ok tt
|}.

(** A driver that cannot be reached. *)
Definition refusing_driver : Driver := {|
  on_connect := fun _ _ => Raise "connection refused";
  on_connection_close := fun _ _ => Ok tt;
  on_cursor := fun hist _ => Ok (S (length hist));
  on_execute := fun _ _ _ _ => Ok tt;
  on_fetchall := fun _ _ => Ok [];
  on_cursor_close := fun _ _ => Ok tt
|}.

(** A driver whose connections fail to close. *)
Definition close_fails_driver : Driver := {|
  on_connect := fun hist _ => Ok (S (length hist));
  on_connection_close := fun _ _ => Raise "close failed";
  on_cursor := fun hist _ => Ok (S (length hist));
  on_execute := fun _ _ _ _ => Ok tt;
  on_fetchall := fun _ _ => Ok [];
  on_cursor_close := fun _ _ => Ok tt
|}.

(** A driver on which every statement fails. *)
Definition failing_execute_driver : Driver := {|
  on_connect := fun hist _ => Ok (S (length hist));
  on_connection_close := fun _ _ => Ok tt;
  on_cursor := fun hist _ => Ok (S (length hist));
  on_execute := fun _ _ _ _ => Raise "SQL compilation error";
  on_fetchall := fun _ _ => Ok [];
  on_cursor_close := fun _ _ => Ok tt
|}.

(** A driver that is interrupted at every call: each of its entry points
    raises a [KeyboardInterrupt], which is no instance of [Exception]. *)
Definition interrupted_driver : Driver := {|
  on_connect := fun _ _ => Raise (base_exception "KeyboardInterrupt");
  on_connection_close := fun _ _ => Raise (base_exception "KeyboardInterrupt");
  on_cursor := fun _ _ => Raise (base_exception "KeyboardInterrupt");
  on_execute := fun _ _ _ _ => Raise (base_exception "KeyboardInterrupt");
  on_fetchall := fun _ _ => Raise (base_exception "KeyboardInterrupt");
  on_cursor_close := fun _ _ => Raise (base_exception "KeyboardInterrupt")
|}.

Definition sample_client : SnowflakeClient :=
  __init__ "test-account" "test-user" "test-password" (Some "test-warehouse")
    None None None.

(** The world right after the constructor. *)
Definition new_world (c : SnowflakeClient) : World := {| self := c; trace := [] |}.

(** The world after a first [connect] on driver [drv]. *)
Definition connected_world (drv : Driver) : World :=
  (connect drv (new_world sample_client)).2.

Definition sample_init : gmap string string :=
  <["schema" := "S"]> (<["database" := "D"]> ∅).

Definition sample_environ : gmap string string :=
  <["SNOWFLAKE_ROLE" := "test-role"]>
    (<["SNOWFLAKE_WAREHOUSE" := "test-warehouse"]>
       (<["SNOWFLAKE_PASSWORD" := "test-password"]>
          (<["SNOWFLAKE_USER" := "test-user"]>
             (<["SNOWFLAKE_ACCOUNT" := "test-account"]> ∅)))).

(** ** Further vocabulary for the properties of the module *)

(** The required variables, as [examples/basic_usage.py] lists them
    ([required_env_vars], line 94). *)
Definition required_env_vars : list string :=
  ["SNOWFLAKE_ACCOUNT"; "SNOWFLAKE_USER"; "SNOWFLAKE_PASSWORD"].

(** [[var for var in required_env_vars if not os.getenv(var)]]
    (basic_usage.py, line 95). *)
Definition missing_vars (environ : gmap string string) : list string :=
  filter (fun var => truthy_str (environ !! var) = None) required_env_vars.

(** The keys that [__init__] stores for an optional field. *)
Definition optional_key (key : string) (value : option string) : gset string :=
  match truthy_str value with
  | Some _ => {[ key ]}
  | None => ∅
  end.

(** An event of a run that works on the handle [h] and on nothing else: no
    connect, no disconnect, no close of a connection, no entry or exit of a
    scope, and cursors opened on [h] only. *)
Definition on_handle (h : Handle) (e : Event) : Prop :=
  match e with
  | Call m => m = m_execute_query \/ m = m_initialize_context
  | Drv (connector_connect _) => False
  | Drv (connection_close _) => False
  | Drv (connection_cursor h') => h' = h
  | Drv _ => True
  | Out _ => True
  end.

(** The client object is [s] at the end, and every event satisfies [P]. *)
Definition stays {A : Type} (P : Event -> Prop) (s : SnowflakeClient)
    (r : Res A) (w' : World) (d : list Event) : Prop :=
  self w' = s /\ Forall P d.

(** A run that raises an instance of [Exception] ends with an error line of
    the log that carries the message of the exception. *)
Definition logged {A : Type} (r : Res A) (w' : World) (d : list Event) : Prop :=
  forall msg, r = Raise (exception msg) ->
    exists prefix, last d = Some (Out (log_error (prefix +:+ msg))).

(** An event other than an error line of the log. *)
Definition no_error_line (e : Event) : Prop :=
  match e with
  | Out (log_error _) => False
  | _ => True
  end.

(** A run that returns, or that raises an exception that is no instance of
    [Exception], writes no error line. *)
Definition unlogged {A : Type} (r : Res A) (w' : World) (d : list Event) : Prop :=
  match r with
  | Raise (exception _) => True
  | _ => Forall no_error_line d
  end.

(** What [connect] writes to the log after the driver answered. *)
Definition connect_log (answer : Res Handle) : list Event :=
  match answer with
  | Ok _ => [Out (log_info "Successfully connected to Snowflake")]
  | Raise (exception msg) =>
      [Out (log_error ("Failed to connect to Snowflake: " +:+ msg))]
  | Raise (base_exception _) => []
  end.



(** The run returns, or raises an exception that [except Exception] does
    not catch. *)
Definition uncaught (r : Res unit) : Prop :=
  r = Ok tt \/ exists msg, r = Raise (base_exception msg).

(** How many times the driver's [connect] is called by a run that issues
    the statements [stmts] from [w]: once when there is a statement to issue
    and no handle, never otherwise. *)
Definition lazy_connects (w : World) (stmts : list string) : nat :=
  match connection (self w), stmts with
  | None, _ :: _ => 1
  | _, _ => 0
  end.

(** The driver's [connect], with the parameters [kwargs], is the first call
    that the driver sees in [d]: the events before it are no driver calls. *)
Definition connects_first (kwargs : gmap string string) (d : list Event) : Prop :=
  exists pre rest,
    d = pre ++ Drv (connector_connect kwargs) :: rest /\ driver_calls pre = [].

(** The statements [stmts] are issued in order: the first few when the run
    raises, all of them, on a client that then holds a handle, when it
    returns.  The client connects only if it has to. *)
Definition issues_lazily {A : Type} (w : World) (stmts : list string)
    (r : Res A) (w' : World) (d : list Event) : Prop :=
  statements d `prefix_of` stmts /\
  (is_ok r = true ->
   statements d = stmts /\ (stmts <> [] -> connection (self w') <> None)) /\
  driver_connects d = lazy_connects w stmts.

(** ** The callers in [examples/basic_usage.py] *)

(** A value of type [Res] used as a step of a run: a function of the module
    that returns or raises without touching the client. *)
Definition lift {A : Type} (r : Res A) : M A := fun w => (r, w).

(** [client = ...]: from here on the run works on the object [c]. *)
Definition bind_client (c : SnowflakeClient) : M unit :=
  fun w => (Ok tt, {| self := c; trace := trace w |}).

Definition print (msg : string) : M unit := record (Out (print_line msg)).

(** The line feed of ["\n"]. *)
Definition nl : string := String (Ascii.ascii_of_nat 10) EmptyString.

(** [str(v)], as an f-string formats a cell. *)
Definition str_value (v : Value) : string :=
  match v with
  | VNone => "None"
  | VInt z => pretty z
  | VStr s => s
  end.

(** [results[0]]: an [IndexError] on an empty list, with the message Python
    gives it. *)
Definition index0 (results : list Row) : M Row :=
  match results with
  | [] => raise "list index out of range"
  | row :: _ => ret row
  end.

(** [row[column]]: a [KeyError] on a missing column; its message is the
    quoted key. *)
Definition item (row : Row) (column : string) : M Value :=
  match row !! column with
  | Some v => ret v
  | None => raise ("'" +:+ column +:+ "'")
  end.

(** [try: m finally: final] *)
Definition try_finally {A : Type} (m : M A) (final : M unit) : M A :=
  fun w =>
    match m w with
    | (Ok a, w') => (final ;; ret a) w'
    | (Raise e, w') => (final ;; raise e) w'
    end.

(** The body of the [with] block of [example_with_env_variables]
    (basic_usage.py, lines 20-29). *)
Definition env_variables_body (drv : Driver) : M unit :=
  results <- execute_query drv "SELECT CURRENT_TIMESTAMP() as current_time" None None ;;
  row <- index0 results ;;
  cell <- item row "CURRENT_TIME" ;;
  print ("Current timestamp: " +:+ str_value cell) ;;
  let init_context : gmap string string :=
    <["schema" := "TPCH_SF1"]> (<["database" := "SNOWFLAKE_SAMPLE_DATA"]> ∅) in
  results <- execute_query drv "SELECT COUNT(*) as row_count FROM CUSTOMER LIMIT 1"
               None (Some init_context) ;;
  row <- index0 results ;;
  cell <- item row "ROW_COUNT" ;;
  print ("Customer table row count: " +:+ str_value cell).

(** [example_with_env_variables] (basic_usage.py, lines 13-33). *)
Definition example_with_env_variables (drv : Driver) (environ : gmap string string)
    : M unit :=
  print "=== Example 1: Using Environment Variables ===" ;;
  try_except
    (client <- lift (create_snowflake_client_from_env environ) ;;
     bind_client client ;;
     with_client drv (env_variables_body drv))
    (fun e =>
       print ("Error: " +:+ str e) ;;
       print "Make sure your environment variables are set correctly.").

(** The client of [example_with_manual_config] (lines 41-48). *)
Definition manual_client : SnowflakeClient :=
  __init__ "your-account" "your-username" "your-password" (Some "your-warehouse")
    (Some "your-database") (Some "your-schema") None.

(** [example_with_manual_config] (basic_usage.py, lines 36-61). *)
Definition example_with_manual_config (drv : Driver) : M unit :=
  print (nl +:+ "=== Example 2: Manual Configuration ===") ;;
  bind_client manual_client ;;
  try_finally
    (try_except
       (connect drv ;;
        results <- execute_query drv "SELECT CURRENT_USER() as current_user" None None ;;
        row <- index0 results ;;
        cell <- item row "CURRENT_USER" ;;
        print ("Current user: " +:+ str_value cell))
       (fun e =>
          print ("Error: " +:+ str e) ;;
          print "Update the credentials in this example to test manual configuration."))
    (disconnect drv).

(** The query text and the parameters of [example_parameterized_query]
    (lines 71-77). *)
Definition parameterized_query : string :=
  nl +:+ "            SELECT " +:+
  nl +:+ "                %(param1)s as parameter_1," +:+
  nl +:+ "                %(param2)s as parameter_2," +:+
  nl +:+ "                CURRENT_TIMESTAMP() as query_time" +:+
  nl +:+ "            ".

Definition parameterized_params : gmap string Value :=
  <["param2" := VStr "World"]> (<["param1" := VStr "Hello"]> ∅).

(** The body of the [with] block of [example_parameterized_query]
    (lines 70-83). *)
Definition parameterized_body (drv : Driver) : M unit :=
  results <- execute_query drv parameterized_query (Some parameterized_params) None ;;
  result <- index0 results ;;
  cell <- item result "PARAMETER_1" ;;
  print ("Parameter 1: " +:+ str_value cell) ;;
  cell <- item result "PARAMETER_2" ;;
  print ("Parameter 2: " +:+ str_value cell) ;;
  cell <- item result "QUERY_TIME" ;;
  print ("Query time: " +:+ str_value cell).

(** [example_parameterized_query] (basic_usage.py, lines 64-86). *)
Definition example_parameterized_query (drv : Driver) (environ : gmap string string)
    : M unit :=
  print (nl +:+ "=== Example 3: Parameterized Queries ===") ;;
  try_except
    (client <- lift (create_snowflake_client_from_env environ) ;;
     bind_client client ;;
     with_client drv (parameterized_body drv))
    (fun e => print ("Error: " +:+ str e)).

(** The script itself (basic_usage.py, lines 89-109). *)
Definition main (drv : Driver) (environ : gmap string string) : M unit :=
  print "Snowflake Client Examples" ;;
  print "==================================================" ;;
  (match missing_vars environ with
   | _ :: _ =>
       print ("Missing environment variables: "
              +:+ String.concat ", " (missing_vars environ)) ;;
       print "Please set these variables before running the examples." ;;
       print (nl +:+ "Example:") ;;
       print "export SNOWFLAKE_ACCOUNT='your-account'" ;;
       print "export SNOWFLAKE_USER='your-username'" ;;
       print "export SNOWFLAKE_PASSWORD='your-password'"
   | [] =>
       example_with_env_variables drv environ ;;
       example_parameterized_query drv environ
   end) ;;
  example_with_manual_config drv.

(** ** What the driver sees of the examples *)

(** What the driver sees of a session opened from the environment: nothing
    when a required variable is missing, the refused connect when the
    connect fails, and otherwise a connect, queries on the new handle and one
    close of that handle at the end. *)
Definition session_calls (drv : Driver) (environ : gmap string string)
    (hist calls : list DriverCall) : Prop :=
  match create_snowflake_client_from_env environ with
  | Raise _ => calls = []
  | Ok client =>
      let kwargs := connection_params client in
      match on_connect drv hist kwargs with
      | Raise _ => calls = [connector_connect kwargs]
      | Ok h =>
          exists mid,
            calls = connector_connect kwargs :: mid ++ [connection_close h] /\
            Forall (fun c => on_handle h (Drv c)) mid
      end
  end.

(** What is left of an exception [e] raised in a [try] block whose
    [except Exception] clause only prints: an instance of [Exception] is
    handled and the statement completes, any other exception goes on. *)
Definition after_except (e : Exn) : Res unit :=
  match e with
  | exception _ => Ok tt
  | base_exception msg => Raise (base_exception msg)
  end.

(** What an example that opens its session from the environment yields.  A
    missing variable and a refused connect are exceptions raised inside the
    [try] block; once the session is open, the example returns unless an
    exception that is no instance of [Exception] gets out. *)
Definition session_result (drv : Driver) (environ : gmap string string)
    (hist : list DriverCall) (result : Res unit) : Prop :=
  match create_snowflake_client_from_env environ with
  | Raise e => result = after_except e
  | Ok client =>
      match on_connect drv hist (connection_params client) with
      | Raise e => result = after_except e
      | Ok _ => uncaught result
      end
  end.

(** What the driver sees of [example_with_manual_config], and what the
    example yields: the connect with the parameters of [manual_client]; when
    it is refused, nothing else; otherwise queries on the new handle, then
    one close of that handle.  An exception of that close leaves the
    example; when the close returns, the example returns unless an exception
    that is no instance of [Exception] got out of the [try] block. *)
Definition manual_session (drv : Driver) (hist calls : list DriverCall)
    (result : Res unit) : Prop :=
  let kwargs := connection_params manual_client in
  match on_connect drv hist kwargs with
  | Raise e => calls = [connector_connect kwargs] /\ result = after_except e
  | Ok h =>
      exists mid,
        calls = connector_connect kwargs :: mid ++ [connection_close h] /\
        Forall (fun c => on_handle h (Drv c)) mid /\
        match on_connection_close drv (hist ++ connector_connect kwargs :: mid) h with
        | Ok _ => uncaught result
        | Raise e => result = Raise e
        end
  end.

(** A driver that is interrupted while it executes a statement. *)
Definition interrupted_query_driver : Driver := {|
  on_connect := fun hist _ => Ok (S (length hist));
  on_connection_close := fun _ _ => Ok tt;
  on_cursor := fun hist _ => Ok (S (length hist));
  on_execute := fun _ _ _ _ => Raise (base_exception "KeyboardInterrupt");
  on_fetchall := fun _ _ => Ok [];
  on_cursor_close := fun _ _ => Ok tt
|}.

(** A driver whose queries all return the same two rows. *)
Definition two_rows : list Row :=
  [ {[ "A" := VInt 1 ]}; {[ "A" := VInt 2 ]} ].

Definition two_rows_driver : Driver := {|
  on_connect := fun hist _ => Ok (S (length hist));
  on_connection_close := fun _ _ => Ok tt;
  on_cursor := fun hist _ => Ok (S (length hist));
  on_execute := fun _ _ _ _ => Ok tt;
  on_fetchall := fun _ _ => Ok two_rows;
  on_cursor_close := fun _ _ => Ok tt
|}.
(** ** Reasoning about runs *)

(** *** Traces *)

Lemma driver_calls_app (t1 t2 : list Event) :
  driver_calls (t1 ++ t2) = driver_calls t1 ++ driver_calls t2.
Proof. apply omap_app. Qed.

Lemma statements_app (t1 t2 : list Event) :
  statements (t1 ++ t2) = statements t1 ++ statements t2.
Proof. apply omap_app. Qed.

Lemma calls_of_app (m : Method) (t1 t2 : list Event) :
  calls_of m (t1 ++ t2) = calls_of m t1 + calls_of m t2.
Proof. unfold calls_of. by rewrite omap_app, length_app. Qed.

Lemma driver_connects_app (t1 t2 : list Event) :
  driver_connects (t1 ++ t2) = driver_connects t1 + driver_connects t2.
Proof. unfold driver_connects. by rewrite driver_calls_app, omap_app, length_app. Qed.

Lemma cursor_closes_app (c : Cursor) (t1 t2 : list Event) :
  cursor_closes c (t1 ++ t2) = cursor_closes c t1 + cursor_closes c t2.
Proof. unfold cursor_closes. by rewrite driver_calls_app, omap_app, length_app. Qed.

Lemma events_since_app (w w' : World) (d : list Event) :
  trace w' = trace w ++ d -> events_since w w' = d.
Proof. unfold events_since. intros ->. apply drop_app_length. Qed.

(** *** Rules for [wp] *)

Section WpRules.

Context {A B : Type}.

Lemma wp_elim (m : M A) w Q :
  wp m w Q -> Q (m w).1 (m w).2 (events_since w (m w).2).
Proof. intros (d & Ht & HQ). by rewrite (events_since_app _ _ d). Qed.

Lemma wp_mono (m : M A) w (Q Q' : Res A -> World -> list Event -> Prop) :
  wp m w Q -> (forall r w' d, Q r w' d -> Q' r w' d) -> wp m w Q'.
Proof. intros (d & Ht & HQ) HQQ'. exists d. auto. Qed.

Lemma wp_ret (a : A) w Q : Q (Ok a) w [] -> wp (ret a) w Q.
Proof. intros HQ. exists []. simpl. by rewrite app_nil_r. Qed.

Lemma wp_raise (e : Exn) w (Q : Res A -> World -> list Event -> Prop) :
  Q (Raise e) w [] -> wp (raise e) w Q.
Proof. intros HQ. exists []. simpl. by rewrite app_nil_r. Qed.

Lemma wp_bind (m : M A) (k : A -> M B) w Q :
  wp m w (fun r w1 d1 =>
            match r with
            | Ok a => wp (k a) w1 (fun r' w' d2 => Q r' w' (d1 ++ d2))
            | Raise e => Q (Raise e) w1 d1
            end) ->
  wp (bind m k) w Q.
Proof.
  unfold wp, bind. intros (d1 & Ht1 & H).
  destruct (m w) as [[a | e] w1]; simpl in *.
  - destruct H as (d2 & Ht2 & HQ). exists (d1 ++ d2).
    by rewrite Ht2, Ht1, app_assoc.
  - by exists d1.
Qed.

Lemma wp_try_except (m : M A) (handler : Exn -> M A) w Q :
  wp m w (fun r w1 d1 =>
            match r with
            | Ok a => Q (Ok a) w1 d1
            | Raise (exception msg) =>
                wp (handler (exception msg)) w1 (fun r' w' d2 => Q r' w' (d1 ++ d2))
            | Raise (base_exception msg) => Q (Raise (base_exception msg)) w1 d1
            end) ->
  wp (try_except m handler) w Q.
Proof.
  unfold wp, try_except. intros (d1 & Ht1 & H).
  destruct (m w) as [[a | [msg | msg]] w1]; simpl in *.
  - by exists d1.
  - destruct H as (d2 & Ht2 & HQ). exists (d1 ++ d2).
    by rewrite Ht2, Ht1, app_assoc.
  - by exists d1.
Qed.

Lemma wp_driver_call (c : DriverCall) (answer : list DriverCall -> Res A) w Q :
  Q (answer (driver_calls (trace w)))
    {| self := self w; trace := trace w ++ [Drv c] |} [Drv c] ->
  wp (driver_call c answer) w Q.
Proof. intros HQ. by exists [Drv c]. Qed.

End WpRules.

Lemma wp_record (e : Event) w Q :
  Q (Ok tt) {| self := self w; trace := trace w ++ [e] |} [e] -> wp (record e) w Q.
Proof. intros HQ. by exists [e]. Qed.

Lemma wp_get_connection w Q :
  Q (Ok (connection (self w))) w [] -> wp get_connection w Q.
Proof. intros HQ. exists []. simpl. by rewrite app_nil_r. Qed.

Lemma wp_get_connection_params w Q :
  Q (Ok (connection_params (self w))) w [] -> wp get_connection_params w Q.
Proof. intros HQ. exists []. simpl. by rewrite app_nil_r. Qed.

Lemma wp_set_connection (c : option Handle) w Q :
  Q (Ok tt)
    {| self := {| connection_params := connection_params (self w); connection := c |};
       trace := trace w |} [] ->
  wp (set_connection c) w Q.
Proof. intros HQ. exists []. simpl. by rewrite app_nil_r. Qed.

(** One step of symbolic execution. *)
Ltac wp_step :=
  lazymatch goal with
  | |- wp (bind _ _) _ _ => apply wp_bind
  | |- wp (try_except _ _) _ _ => apply wp_try_except
  | |- wp (ret _) _ _ => apply wp_ret
  | |- wp (raise _) _ _ => apply wp_raise
  | |- wp (record _) _ _ => apply wp_record
  | |- wp (logger_info _) _ _ => apply wp_record
  | |- wp (logger_error _) _ _ => apply wp_record
  | |- wp (driver_call _ _) _ _ => apply wp_driver_call
  | |- wp get_connection _ _ => apply wp_get_connection
  | |- wp get_connection_params _ _ => apply wp_get_connection_params
  | |- wp (set_connection _) _ _ => apply wp_set_connection
  end.

Ltac wp_run := repeat (wp_step; cbn beta iota).

(** Events that are not driver calls do not show in the driver's history. *)
Lemma driver_calls_snoc_call (t : list Event) (m : Method) :
  driver_calls (t ++ [Call m]) = driver_calls t.
Proof. rewrite driver_calls_app. apply app_nil_r. Qed.

Lemma driver_calls_snoc_out (t : list Event) (o : Output) :
  driver_calls (t ++ [Out o]) = driver_calls t.
Proof. rewrite driver_calls_app. apply app_nil_r. Qed.

Lemma driver_calls_snoc_drv (t : list Event) (c : DriverCall) :
  driver_calls (t ++ [Drv c]) = driver_calls t ++ [c].
Proof. by rewrite driver_calls_app. Qed.

Create Rewrite HintDb history.
#[global] Hint Rewrite driver_calls_snoc_call driver_calls_snoc_out
  driver_calls_snoc_drv : history.

Ltac wp_simpl :=
  cbn [self trace connection connection_params app]; autorewrite with history.

(** ** What each method does *)

Section MethodSpecs.

Variable drv : Driver.

(** [connect] asks the driver once, with the stored parameters.  The
    handle is assigned when the driver returns one; when the driver raises,
    the exception propagates and the attribute keeps its value. *)
Lemma connect_spec w :
  wp (connect drv) w (fun r w' d =>
    let params := connection_params (self w) in
    let answer := on_connect drv (driver_calls (trace w)) params in
    connection_params (self w') = params /\
    d = Call m_connect :: Drv (connector_connect params) :: connect_log answer /\
    match answer with
    | Ok h => r = Ok tt /\ connection (self w') = Some h
    | Raise e => r = Raise e /\ connection (self w') = connection (self w)
    end).
Proof.
  unfold connect. cbn zeta. wp_run. wp_simpl.
  destruct (on_connect drv _ _) as [h | [msg | msg]]; wp_run; wp_simpl; done.
Qed.

(** The log lines of [connect] are no driver calls, no statements and no
    method entries. *)
Lemma driver_calls_connect_log answer : driver_calls (connect_log answer) = [].
Proof. by destruct answer as [h | [msg | msg]]. Qed.

Lemma statements_connect_log answer : statements (connect_log answer) = [].
Proof. by destruct answer as [h | [msg | msg]]. Qed.

Lemma calls_of_connect_log m answer : calls_of m (connect_log answer) = 0.
Proof. by destruct answer as [h | [msg | msg]]. Qed.

Lemma driver_connects_connect_log answer : driver_connects (connect_log answer) = 0.
Proof. by destruct answer as [h | [msg | msg]]. Qed.

(** [disconnect] without a handle does nothing; with a handle it asks
    the driver to close it, and clears the attribute when that returns. *)
Lemma disconnect_spec w :
  wp (disconnect drv) w (fun r w' d =>
    connection_params (self w') = connection_params (self w) /\
    calls_of m_disconnect d = 1 /\
    match connection (self w) with
    | None => r = Ok tt /\ connection (self w') = None /\ driver_calls d = []
    | Some h =>
        driver_calls d = [connection_close h] /\
        match on_connection_close drv (driver_calls (trace w)) h with
        | Ok _ => r = Ok tt /\ connection (self w') = None
        | Raise e => r = Raise e /\ connection (self w') = Some h
        end
    end).
Proof.
  unfold disconnect. wp_run. wp_simpl.
  destruct (connection (self w)) as [h |] eqn:Hconn; wp_run; wp_simpl; [| by rewrite Hconn].
  destruct (on_connection_close drv _ _) as [[] | e]; wp_run; wp_simpl; by rewrite ?Hconn.
Qed.

(** *** Runs on a connected client *)

(** Branch on the driver's answer, or on a test of the code. *)
Ltac wp_case :=
  lazymatch goal with
  | |- match ?x with _ => _ end => destruct x eqn:?
  | |- wp (match ?x with _ => _ end) _ _ => destruct x eqn:?
  end.

Ltac wp_auto := repeat (first [wp_step | wp_case]; cbn beta iota; wp_simpl).

Lemma execute_and_fetch_issues w query params :
  wp (execute_and_fetch drv query params) w (issues (self w) [query]).
Proof.
  unfold execute_and_fetch, issues. wp_auto.
  all: repeat split; try done; try apply prefix_nil.
Qed.

(** The life of the cursor that [execute_and_fetch] opens: which driver
    calls are made, and what is returned, according to the answers of
    [execute], [fetchall] and [close]. *)
Lemma execute_and_fetch_cursor w query params h c :
  connection (self w) = Some h ->
  on_cursor drv (driver_calls (trace w)) h = Ok c ->
  wp (execute_and_fetch drv query params) w (fun r w' d =>
    let sent := truthy_dict params in
    let opened := driver_calls (trace w) ++ [connection_cursor h] in
    let executed := opened ++ [cursor_execute c query sent] in
    let fetched := executed ++ [cursor_fetchall c] in
    match on_execute drv opened c query sent with
    | Raise e =>
        r = Raise e /\
        driver_calls d = [connection_cursor h; cursor_execute c query sent]
    | Ok _ =>
        match on_fetchall drv executed c with
        | Raise e =>
            r = Raise e /\
            driver_calls d =
              [connection_cursor h; cursor_execute c query sent; cursor_fetchall c]
        | Ok rows =>
            r = match on_cursor_close drv fetched c with
                | Ok _ => Ok rows
                | Raise e => Raise e
                end /\
            driver_calls d =
              [connection_cursor h; cursor_execute c query sent; cursor_fetchall c;
               cursor_close c]
        end
    end).
Proof.
  intros Hconn Hcur. unfold execute_and_fetch. wp_run.
  rewrite Hconn. wp_run. wp_simpl. rewrite Hcur. wp_run.
  destruct (truthy_dict params) as [p |]; wp_run; wp_simpl.
  all: destruct (on_execute drv _ _ _ _) as [[] | [e1 | e1]]; wp_run; wp_simpl;
    try done.
  all: destruct (on_fetchall drv _ _) as [rows | [e2 | e2]]; wp_run; wp_simpl;
    try done.
  all: destruct (on_cursor_close drv _ _) as [[] | [e3 | e3]]; wp_run; wp_simpl; done.
Qed.

Lemma issues_app {A B : Type} s l1 l2 (a : A) (r : Res B) w1 w2 d1 d2 :
  issues s l1 (Ok a) w1 d1 -> issues s l2 r w2 d2 ->
  issues s (l1 ++ l2) r w2 (d1 ++ d2).
Proof.
  intros (_ & Hc1 & Hd1 & _ & Hok1) (? & Hc2 & Hd2 & Hp2 & Hok2).
  unfold issues.
  rewrite calls_of_app, driver_connects_app, statements_app, Hc1, Hd1, Hc2, Hd2, Hok1
    by done.
  repeat split; try done.
  - by apply prefix_app.
  - intros Hr. by rewrite Hok2.
Qed.

Lemma issues_raise {A B : Type} s l1 l2 e w1 d1 :
  issues (A := A) s l1 (Raise e) w1 d1 -> issues (A := B) s (l1 ++ l2) (Raise e) w1 d1.
Proof.
  intros (? & ? & ? & ? & _). repeat split; try done. by apply prefix_app_r.
Qed.

Lemma runs_ret {A : Type} (a : A) w : runs (ret a) w [].
Proof. by apply wp_ret. Qed.

Lemma runs_raise {A : Type} e w stmts : runs (A := A) (raise e) w stmts.
Proof. apply wp_raise. repeat split; try done. apply prefix_nil. Qed.

Lemma runs_record e w : silent e -> runs (record e) w [].
Proof.
  intros He. apply wp_record. repeat split; try done.
  - destruct e as [m | c | o]; try done. unfold calls_of. simpl in *.
    by rewrite decide_False.
  - by destruct e.
  - by destruct e.
  - by destruct e.
Qed.

(** Sequencing: the second part runs from a world with the same client
    object, and only when the first part returned. *)
Lemma runs_bind {A B : Type} (m : M A) (k : A -> M B) w l1 l2 :
  runs m w l1 ->
  (forall a w1, self w1 = self w -> runs (k a) w1 l2) ->
  runs (bind m k) w (l1 ++ l2).
Proof.
  intros Hm Hk. apply wp_bind. eapply wp_mono; [apply Hm |].
  intros [a | e] w1 d1 H1; cbn beta iota.
  - eapply wp_mono; [apply Hk, H1 |]. intros r w2 d2 H2; cbn beta.
    destruct H1 as (Hs & H1). rewrite Hs in H2. eapply issues_app; [| done].
    by split.
  - by apply (issues_raise (A := A)).
Qed.

(** The [except] clauses of this module log the exception and raise it
    again. *)
Lemma runs_try_except {A : Type} (m : M A) (msg : Exn -> string) w stmts :
  runs m w stmts ->
  runs (try_except m (fun e => logger_error (msg e) ;; raise e)) w stmts.
Proof.
  intros Hm. apply wp_try_except. eapply wp_mono; [apply Hm |].
  intros [a | [e | e]] w1 d1 H1; cbn beta iota; [done | | done].
  wp_run. destruct H1 as (? & Hc & Hd & ? & ?).
  unfold issues. rewrite !app_nil_r, calls_of_app, driver_connects_app, statements_app.
  rewrite Hc, Hd. simpl. by rewrite app_nil_r.
Qed.

Lemma runs_execute_and_fetch w query params :
  runs (execute_and_fetch drv query params) w [query].
Proof. apply execute_and_fetch_issues. Qed.

Lemma issues_call {A : Type} s stmts (r : Res A) w' d m :
  m <> m_connect -> issues s stmts r w' d -> issues s stmts r w' (Call m :: d).
Proof.
  intros Hm (? & Hc & ? & ? & ?). repeat split; try done.
  change (Call m :: d) with ([Call m] ++ d). rewrite calls_of_app, Hc.
  unfold calls_of. simpl. by rewrite decide_False.
Qed.

Lemma runs_execute_query_no_init w query params h :
  connection (self w) = Some h ->
  runs (execute_query_no_init drv query params) w [query].
Proof.
  intros Hconn. unfold runs, execute_query_no_init, execute_query_with.
  wp_run. wp_simpl. rewrite Hconn. wp_run. cbn [truthy_dict]. wp_run.
  eapply wp_mono; [apply runs_execute_and_fetch |].
  intros r w' d H. wp_simpl. by apply issues_call.
Qed.

Lemma runs_initialize_context w database schema h :
  connection (self w) = Some h ->
  runs (initialize_context drv database schema) w (use_statements database schema).
Proof.
  intros Hconn. unfold initialize_context, initialize_context_with, use_statements.
  apply (runs_bind _ _ _ [] _); [by apply runs_record |].
  intros _ w1 Hw1. apply runs_try_except. apply runs_bind.
  - destruct (truthy_str database) as [db |]; [| apply runs_ret].
    apply (runs_bind _ _ _ [_] []).
    + eapply runs_execute_query_no_init. by rewrite Hw1.
    + intros _ w2 _. by apply runs_record.
  - intros _ w2 Hw2. destruct (truthy_str schema) as [sc |]; [| apply runs_ret].
    apply (runs_bind _ _ _ [_] []).
    + eapply runs_execute_query_no_init. by rewrite Hw2, Hw1.
    + intros _ w3 _. by apply runs_record.
Qed.

(** What [execute_query] does once there is a handle: set the context
    when [init] asks for it, then run the query. *)
Lemma runs_context_then_query w query params init h :
  connection (self w) = Some h ->
  runs (match truthy_dict init with
        | Some d => initialize_context drv (d !! "database") (d !! "schema")
        | None => ret tt
        end ;;
        execute_and_fetch drv query params)
       w (context_statements init ++ [query]).
Proof.
  intros Hconn. unfold context_statements. apply runs_bind.
  - destruct (truthy_dict init) as [d |]; [| apply runs_ret].
    by eapply runs_initialize_context.
  - intros _ w1 _. apply runs_execute_and_fetch.
Qed.

Lemma runs_execute_query w query params init h :
  connection (self w) = Some h ->
  runs (execute_query drv query params init) w (context_statements init ++ [query]).
Proof.
  intros Hconn. unfold runs, execute_query, execute_query_with.
  do 4 (wp_step; cbn beta iota). wp_simpl. rewrite Hconn.
  do 2 (wp_step; cbn beta iota).
  eapply wp_mono; [by eapply runs_context_then_query |].
  intros r w' d H. wp_simpl. by apply issues_call.
Qed.

(** Without a handle, [execute_query] starts with [connect]; what follows
    is the run of a connected client. *)
Lemma execute_query_unconnected w query params init :
  connection (self w) = None ->
  wp (execute_query drv query params init) w (fun r w' d =>
    let kwargs := connection_params (self w) in
    let answer := on_connect drv (driver_calls (trace w)) kwargs in
    exists d',
      d = Call m_execute_query :: Call m_connect :: Drv (connector_connect kwargs)
            :: connect_log answer ++ d' /\
      match answer with
      | Raise e => r = Raise e /\ d' = [] /\ self w' = self w
      | Ok h =>
          issues {| connection_params := kwargs; connection := Some h |}
            (context_statements init ++ [query]) r w' d'
      end).
Proof.
  intros Hconn. unfold execute_query, execute_query_with.
  do 4 (wp_step; cbn beta iota). wp_simpl. rewrite Hconn. wp_step.
  eapply wp_mono; [apply connect_spec |].
  intros r w1 d1 (Hp & -> & H). cbn zeta. wp_simpl.
  cbn [self trace] in Hp, H |- *. autorewrite with history in H |- *.
  destruct (on_connect drv _ _) as [h | e]; destruct H as [-> Hc]; cbn beta iota.
  - eapply wp_mono; [by eapply runs_context_then_query |].
    intros r w' d H. exists d. split; [done |].
    destruct (self w1) as [p c]. simpl in *. by subst.
  - exists []. rewrite app_nil_r. repeat split; try done.
    destruct (self w1) as [p c], (self w) as [p0 c0]. simpl in *. by subst.
Qed.

(** *** Runs on a driver that answers *)











End MethodSpecs.

(** ** The constructor and the environment *)


Lemma truthy_str_not_empty (o : option string) : truthy_str o <> Some "".
Proof. by destruct o as [[] |]. Qed.


(** What [__init__] stores under each of the seven keys. *)
Lemma init_lookup account user password warehouse database schema role :
  let params :=
    connection_params (__init__ account user password warehouse database schema role) in
  params !! "account" = Some account /\
  params !! "user" = Some user /\
  params !! "password" = Some password /\
  params !! "warehouse" = truthy_str warehouse /\
  params !! "database" = truthy_str database /\
  params !! "schema" = truthy_str schema /\
  params !! "role" = truthy_str role.
Proof.
  unfold __init__, store_if_truthy. cbn [connection_params].
  destruct (truthy_str warehouse), (truthy_str database), (truthy_str schema),
    (truthy_str role); by simplify_map_eq.
Qed.

(** The driver calls of [connect] from a world with trace [t]. *)
Lemma connect_driver_calls drv w :
  driver_calls (events_since w (connect drv w).2) =
    [connector_connect (connection_params (self w))].
Proof.
  destruct (wp_elim _ _ _ (connect_spec drv w)) as (_ & -> & _).
  change (driver_calls (?a :: ?b :: ?l)) with (driver_calls [a; b] ++ driver_calls l).
  by rewrite driver_calls_connect_log.
Qed.

(** ** Connecting and disconnecting *)

(** C1, as stated, fails: on a driver that connects once and then refuses,
    a client that is Connected (handle 1) and whose second [connect] raises
    still holds handle 1 afterwards; it is not Unconnected. *)
Lemma connect_failure_keeps_old_handle :
  let w := connected_world connect_once_driver in
  let again := connect connect_once_driver w in
  connection (self w) = Some 1 /\
  again.1 = Raise "connection refused" /\
  connection (self again.2) = Some 1.
Proof. vm_compute. done. Qed.

(** C1, amended: when the driver's connect raises, [connect] raises the same
    exception and assigns nothing: the client object is as it was before the
    call.  An Unconnected client stays Unconnected, and a Connected client
    keeps the handle it held. *)
Theorem connect_failure_leaves_handle drv w e :
  on_connect drv (driver_calls (trace w)) (connection_params (self w)) = Raise e ->
  (connect drv w).1 = Raise e /\
  self (connect drv w).2 = self w /\
  (connection (self w) = None -> connection (self (connect drv w).2) = None).
Proof.
  intros Hdrv.
  destruct (wp_elim _ _ _ (connect_spec drv w)) as (Hp & _ & H).
  rewrite Hdrv in H. destruct H as [Hr Hc].
  assert (self (connect drv w).2 = self w) as Hself.
  { destruct (self (connect drv w).2), (self w). simpl in *. by subst. }
  split; [done |]. split; [done |]. by rewrite Hself.
Qed.

Lemma connect_failure_leaves_handle_witness :
  (connect connect_once_driver (connected_world connect_once_driver)).1
    = Raise "connection refused" /\
  self (connect connect_once_driver (connected_world connect_once_driver)).2
    = self (connected_world connect_once_driver) /\
  (connection (self (connected_world connect_once_driver)) = None ->
   connection
     (self (connect connect_once_driver (connected_world connect_once_driver)).2)
     = None).
Proof.
  apply (connect_failure_leaves_handle connect_once_driver
           (connected_world connect_once_driver) "connection refused").
  reflexivity.
Defined.

(** C7, as stated, fails: on a driver whose [close] raises, a Connected
    client (handle 1) is still Connected after two calls of [disconnect] in
    a row, and both calls raise. *)
Lemma disconnect_twice_close_fails :
  let w := connected_world close_fails_driver in
  let first := disconnect close_fails_driver w in
  let second := disconnect close_fails_driver first.2 in
  connection (self w) = Some 1 /\
  first.1 = Raise "close failed" /\
  second.1 = Raise "close failed" /\
  connection (self second.2) = Some 1.
Proof. vm_compute. done. Qed.

(** C7, amended: provided the handle's [close] returns, [disconnect] is
    idempotent.  With a handle it calls [close] on it once and clears the
    reference; without a handle it makes no driver call and raises nothing.
    A second [disconnect] right after it returns, makes no driver call, and
    the client is Unconnected. *)
Theorem disconnect_twice drv w :
  (forall h, connection (self w) = Some h ->
             on_connection_close drv (driver_calls (trace w)) h = Ok tt) ->
  let first := disconnect drv w in
  let second := disconnect drv first.2 in
  first.1 = Ok tt /\
  connection (self first.2) = None /\
  driver_calls (events_since w first.2) =
    match connection (self w) with
    | Some h => [connection_close h]
    | None => []
    end /\
  second.1 = Ok tt /\
  connection (self second.2) = None /\
  driver_calls (events_since first.2 second.2) = [].
Proof.
  intros Hclose first second.
  destruct (wp_elim _ _ _ (disconnect_spec drv w)) as (_ & _ & H1).
  destruct (wp_elim _ _ _ (disconnect_spec drv first.2)) as (_ & _ & H2).
  fold first in H1. fold second in H2.
  assert (first.1 = Ok tt /\ connection (self first.2) = None /\
          driver_calls (events_since w first.2) =
            match connection (self w) with
            | Some h => [connection_close h]
            | None => []
            end) as (Hr & Hc & Hd).
  { destruct (connection (self w)) as [h |].
    - rewrite (Hclose h eq_refl) in H1. by destruct H1 as (? & ? & ?).
    - by destruct H1 as (? & ? & ?). }
  rewrite Hc in H2. by destruct H2 as (? & ? & ?).
Qed.

Lemma disconnect_twice_witness :
  let w := connected_world answering_driver in
  let first := disconnect answering_driver w in
  let second := disconnect answering_driver first.2 in
  first.1 = Ok tt /\
  connection (self first.2) = None /\
  driver_calls (events_since w first.2) =
    match connection (self w) with
    | Some h => [connection_close h]
    | None => []
    end /\
  second.1 = Ok tt /\
  connection (self second.2) = None /\
  driver_calls (events_since first.2 second.2) = [].
Proof.
  apply (disconnect_twice answering_driver (connected_world answering_driver)).
  intros h Hh. reflexivity.
Defined.

(** C10: when [disconnect] is called with a handle and the handle's [close]
    raises, the exception propagates and the client object is unchanged: it
    still holds the same handle.  The next [disconnect] calls [close] on that
    handle again. *)
Theorem disconnect_close_raises drv w h e :
  connection (self w) = Some h ->
  on_connection_close drv (driver_calls (trace w)) h = Raise e ->
  let first := disconnect drv w in
  let second := disconnect drv first.2 in
  first.1 = Raise e /\
  connection (self first.2) = Some h /\
  driver_calls (events_since first.2 second.2) = [connection_close h].
Proof.
  intros Hconn Hclose first second.
  destruct (wp_elim _ _ _ (disconnect_spec drv w)) as (_ & _ & H1).
  destruct (wp_elim _ _ _ (disconnect_spec drv first.2)) as (_ & _ & H2).
  fold first in H1. fold second in H2.
  rewrite Hconn, Hclose in H1. destruct H1 as (_ & Hr & Hc).
  rewrite Hc in H2. by destruct H2 as [? _].
Qed.

Lemma disconnect_close_raises_witness :
  let w := connected_world close_fails_driver in
  let first := disconnect close_fails_driver w in
  let second := disconnect close_fails_driver first.2 in
  first.1 = Raise "close failed" /\
  connection (self first.2) = Some 1 /\
  driver_calls (events_since first.2 second.2) = [connection_close 1].
Proof.
  apply (disconnect_close_raises close_fails_driver
           (connected_world close_fails_driver) 1 "close failed");
    reflexivity.
Defined.

(** ** Scoped use *)

Lemma bind_run {A B : Type} (m : M A) (k : A -> M B) w :
  bind m k w =
    match m w with
    | (Ok a, w') => k a w'
    | (Raise e, w') => (Raise e, w')
    end.
Proof. reflexivity. Qed.

Lemma enter_spec drv w :
  wp (__enter__ drv) w (fun r w' d => calls_of m_connect d = 1).
Proof.
  unfold __enter__. wp_run.
  eapply wp_mono; [apply connect_spec |]. intros r w' d (_ & -> & _). cbn [app].
  change (calls_of m_connect (?a :: ?b :: ?c :: ?l))
    with (calls_of m_connect [a; b; c] + calls_of m_connect l).
  by rewrite calls_of_connect_log.
Qed.

Lemma exit_spec drv exc w :
  wp (__exit__ drv exc) w (fun r w' d => calls_of m_disconnect d = 1).
Proof.
  unfold __exit__. wp_run.
  eapply wp_mono; [apply disconnect_spec |]. intros r w' d (_ & Hd & _).
  cbn [app]. change (Call m_exit :: d) with ([Call m_exit] ++ d).
  by rewrite calls_of_app, Hd.
Qed.

(** C6: used as a scoped resource, the client calls [connect] once on
    entry.  When entry raises, the scope is not entered.  Otherwise, whatever
    the body does and whether it returns or raises, leaving the scope calls
    [disconnect] exactly once. *)
Theorem with_client_connects_and_disconnects drv (A : Type) (body : M A) w :
  let entered := __enter__ drv w in
  let final := with_client drv body w in
  calls_of m_connect (events_since w entered.2) = 1 /\
  match entered.1 with
  | Raise e => final = (Raise e, entered.2)
  | Ok _ =>
      let after_body := body entered.2 in
      calls_of m_disconnect (events_since after_body.2 final.2) = 1
  end.
Proof.
  intros entered final. split; [apply (wp_elim _ _ _ (enter_spec drv w)) |].
  subst entered final. unfold with_client. rewrite bind_run.
  destruct (__enter__ drv w) as [[[] | e] w1]; [| done]. cbn [fst snd].
  destruct (body w1) as [[a | e] wb]; cbn [fst snd]; rewrite bind_run.
  - pose proof (wp_elim _ _ _ (exit_spec drv None wb)) as H. cbn beta in H.
    by destruct (__exit__ drv None wb) as [[[] | e] wf].
  - pose proof (wp_elim _ _ _ (exit_spec drv (Some e) wb)) as H. cbn beta in H.
    by destruct (__exit__ drv (Some e) wb) as [[[] | e'] wf].
Qed.

(** A body that raises: the exception propagates out of the scope, and on
    the way out the handle was closed and the reference cleared. *)
Example with_client_body_raises :
  let run := with_client answering_driver (raise (A := unit) "boom") (new_world sample_client) in
  run.1 = Raise "boom" /\
  calls_of m_disconnect (trace run.2) = 1 /\
  connection (self run.2) = None /\
  driver_calls (trace run.2) =
    [connector_connect (connection_params sample_client); connection_close 1].
Proof. vm_compute. done. Qed.

(** ** Queries *)

(** C5: without a handle, [execute_query] starts by calling [connect]: the
    call of [connect] and the driver's connect it makes come before every
    other driver call, and neither happens again during the run.  With a
    handle, [execute_query] never calls [connect]. *)
Theorem execute_query_connects_lazily drv w query params init :
  let w' := (execute_query drv query params init w).2 in
  let d := events_since w w' in
  match connection (self w) with
  | None =>
      exists rest,
        d = Call m_execute_query :: Call m_connect
              :: Drv (connector_connect (connection_params (self w))) :: rest /\
        calls_of m_connect rest = 0 /\
        driver_connects rest = 0 /\
        calls_of m_connect d = 1 /\
        driver_connects d = 1
  | Some _ => calls_of m_connect d = 0 /\ driver_connects d = 0
  end.
Proof.
  intros w' d. subst w' d.
  destruct (connection (self w)) as [h |] eqn:Hconn.
  - destruct (wp_elim _ _ _ (runs_execute_query drv w query params init h Hconn))
      as (_ & Hc & Hd & _).
    done.
  - destruct (wp_elim _ _ _ (execute_query_unconnected drv w query params init Hconn))
      as (d' & -> & H).
    assert (calls_of m_connect d' = 0 /\ driver_connects d' = 0) as [Hc Hd].
    { destruct (on_connect drv _ _).
      - by destruct H as (_ & ? & ? & _).
      - by destruct H as (_ & -> & _). }
    eexists. split; [done |].
    change (?a :: ?b :: ?c :: ?l) with ([a; b; c] ++ l).
    by rewrite !calls_of_app, !driver_connects_app, calls_of_connect_log,
      driver_connects_connect_log, Hc, Hd.
Qed.





(** The run of the witness returns, and its statements are the three. *)
Example sample_run_issues_three_statements :
  let run :=
    execute_query answering_driver "SELECT 1" None (Some sample_init)
      (new_world sample_client) in
  run.1 = Ok [] /\
  statements (trace run.2) = ["USE DATABASE D"; "USE SCHEMA S"; "SELECT 1"].
Proof. vm_compute. done. Qed.

(** C2: in the [try] block of [execute_query], once the cursor [c] is open,
    [close] is called on it exactly when both [execute] and [fetchall]
    returned.  When the rows are returned, [close] was the last driver call
    and the rows are the ones fetched; when [execute] or [fetchall] raises,
    the exception propagates and [close] was not called. *)
Theorem execute_and_fetch_closes_cursor drv w query params h c :
  connection (self w) = Some h ->
  on_cursor drv (driver_calls (trace w)) h = Ok c ->
  let sent := truthy_dict params in
  let opened := driver_calls (trace w) ++ [connection_cursor h] in
  let executed := opened ++ [cursor_execute c query sent] in
  let succeeded :=
    is_ok (on_execute drv opened c query sent) && is_ok (on_fetchall drv executed c) in
  let run := execute_and_fetch drv query params w in
  let d := events_since w run.2 in
  cursor_closes c d = (if succeeded then 1 else 0) /\
  (forall rows,
     run.1 = Ok rows ->
     succeeded = true /\
     on_fetchall drv executed c = Ok rows /\
     last (driver_calls d) = Some (cursor_close c)) /\
  (succeeded = false -> exists e, run.1 = Raise e /\ cursor_closes c d = 0).
Proof.
  intros Hconn Hcur sent opened executed succeeded run d.
  pose proof (wp_elim _ _ _ (execute_and_fetch_cursor drv w query params h c Hconn Hcur))
    as H.
  cbn beta zeta in H. fold sent opened executed run d in H. subst succeeded.
  unfold cursor_closes.
  destruct (on_execute drv opened c query sent) as [[] | e1].
  - destruct (on_fetchall drv executed c) as [rows | e2].
    + destruct H as [Hr ->]. cbn. rewrite decide_True by done.
      split; [done |]. split; [| done].
      intros rows' Hrows. rewrite Hrows in Hr.
      destruct (on_cursor_close drv _ _); by simplify_eq.
    + destruct H as [Hr ->]. cbn. split; [done |]. split; [| by eauto].
      intros rows' Hrows. by rewrite Hrows in Hr.
  - destruct H as [Hr ->]. cbn. split; [done |]. split; [| by eauto].
    intros rows' Hrows. by rewrite Hrows in Hr.
Qed.

Lemma execute_and_fetch_closes_cursor_witness :
  let w := connected_world answering_driver in
  let sent := truthy_dict (V := Value) None in
  let opened := driver_calls (trace w) ++ [connection_cursor 1] in
  let executed := opened ++ [cursor_execute 2 "SELECT 1" sent] in
  let succeeded :=
    is_ok (on_execute answering_driver opened 2 "SELECT 1" sent)
    && is_ok (on_fetchall answering_driver executed 2) in
  let run := execute_and_fetch answering_driver "SELECT 1" None w in
  let d := events_since w run.2 in
  cursor_closes 2 d = (if succeeded then 1 else 0) /\
  (forall rows,
     run.1 = Ok rows ->
     succeeded = true /\
     on_fetchall answering_driver executed 2 = Ok rows /\
     last (driver_calls d) = Some (cursor_close 2)) /\
  (succeeded = false -> exists e, run.1 = Raise e /\ cursor_closes 2 d = 0).
Proof.
  apply (execute_and_fetch_closes_cursor answering_driver
           (connected_world answering_driver) "SELECT 1" None 1 2);
    reflexivity.
Defined.

(** A statement that fails: the cursor is opened, [execute] raises, and the
    cursor is never closed. *)
Example execute_fails_cursor_left_open :
  let w := connected_world failing_execute_driver in
  let run := execute_and_fetch failing_execute_driver "SELECT 1" None w in
  run.1 = Raise "SQL compilation error" /\
  driver_calls (events_since w run.2) =
    [connection_cursor 1; cursor_execute 2 "SELECT 1" None].
Proof. vm_compute. done. Qed.

(** [execute_query] ends with that [try] block, whatever [init] is. *)
Lemma execute_query_ends_with_execute_and_fetch drv query params init :
  execute_query drv query params init =
    (record (Call m_execute_query) ;;
     conn <- get_connection ;;
     match conn with
     | None => connect drv
     | Some _ => ret tt
     end ;;
     match truthy_dict init with
     | Some d => initialize_context drv (d !! "database") (d !! "schema")
     | None => ret tt
     end ;;
     execute_and_fetch drv query params).
Proof. reflexivity. Qed.

(** [initialize_context] runs its statements through [execute_query]. *)
Lemma initialize_context_calls_execute_query drv database schema :
  initialize_context drv database schema =
    initialize_context_with (fun q => execute_query drv q None None) database schema.
Proof. reflexivity. Qed.

(** C3: [create_snowflake_client_from_env] depends on the environment only
    through SNOWFLAKE_ACCOUNT, SNOWFLAKE_USER, SNOWFLAKE_PASSWORD,
    SNOWFLAKE_WAREHOUSE and SNOWFLAKE_ROLE: an environment that agrees on
    these five gives the same client, whatever else it sets.  The client
    returned has no database and no schema among its connection
    parameters. *)
Theorem create_from_env_reads_five environ environ' client :
  create_snowflake_client_from_env environ = Ok client ->
  (forall k, k ∈ read_variables -> environ' !! k = environ !! k) ->
  connection_params client !! "database" = None /\
  connection_params client !! "schema" = None /\
  create_snowflake_client_from_env environ' = Ok client.
Proof.
  intros Hc Hagree.
  assert (create_snowflake_client_from_env environ' =
          create_snowflake_client_from_env environ) as ->.
  { unfold create_snowflake_client_from_env.
    by rewrite !Hagree by (unfold read_variables; set_solver). }
  split; [| split; [| done]].
  all: unfold create_snowflake_client_from_env in Hc.
  all: repeat case_match; simplify_eq.
  all: by destruct (init_lookup s s0 s1 (environ !! "SNOWFLAKE_WAREHOUSE") None None
                      (environ !! "SNOWFLAKE_ROLE")) as (_ & _ & _ & _ & ? & ? & _).
Qed.

Lemma create_from_env_reads_five_witness :
  let environ' :=
    <["SNOWFLAKE_SCHEMA" := "PUBLIC"]> (<["SNOWFLAKE_DATABASE" := "SALES"]> sample_environ) in
  let client :=
    __init__ "test-account" "test-user" "test-password" (Some "test-warehouse")
      None None (Some "test-role") in
  connection_params client !! "database" = None /\
  connection_params client !! "schema" = None /\
  create_snowflake_client_from_env environ' = Ok client.
Proof.
  apply (create_from_env_reads_five sample_environ).
  - reflexivity.
  - intros k Hk. unfold read_variables in Hk.
    repeat (apply elem_of_cons in Hk as [-> | Hk]; [reflexivity |]).
    by apply elem_of_nil in Hk.
Defined.

(** ** Connection parameters *)

(** C8, as stated, fails: a warehouse supplied as the empty string is not
    stored with the three required fields. *)
Lemma init_supplied_empty_not_stored :
  let client :=
    __init__ "test-account" "test-user" "test-password" (Some "") None None None in
  connection_params client !! "warehouse" = None /\
  dom (connection_params client) = {["account"; "user"; "password"]}.
Proof. vm_compute. done. Qed.

(** C8, amended: the constructor stores the three required fields, and an
    optional field (warehouse, database, schema, role) exactly when it is
    supplied and not empty.  A field that is absent has no entry at all, and
    no entry is the empty string.  These stored parameters are what [connect]
    passes to the driver. *)
Theorem init_stores_supplied_nonempty drv account user password
    warehouse database schema role t :
  let client := __init__ account user password warehouse database schema role in
  let params := connection_params client in
  let stored (field : option string) : option string :=
    match field with
    | Some v => if decide (v = "") then None else Some v
    | None => None
    end in
  let w := {| self := client; trace := t |} in
  connection client = None /\
  params !! "account" = Some account /\
  params !! "user" = Some user /\
  params !! "password" = Some password /\
  params !! "warehouse" = stored warehouse /\
  params !! "database" = stored database /\
  params !! "schema" = stored schema /\
  params !! "role" = stored role /\
  driver_calls (events_since w (connect drv w).2) = [connector_connect params].
Proof.
  intros client params stored w.
  assert (forall field, truthy_str field = stored field) as Hstored.
  { by intros [[] |]. }
  destruct (init_lookup account user password warehouse database schema role)
    as (? & ? & ? & ? & ? & ? & ?).
  rewrite <- !Hstored. repeat split; try done.
  apply connect_driver_calls.
Qed.

(** C9: an optional field supplied as the empty string is treated as an
    absent one: the client constructed is the same.  None of the four
    optional keys is ever stored with the empty string, so [connect] never
    passes one to the driver. *)
Theorem init_empty_string_as_absent drv account user password
    warehouse database schema role t :
  let client := __init__ account user password warehouse database schema role in
  let w := {| self := client; trace := t |} in
  __init__ account user password (Some "") database schema role =
    __init__ account user password None database schema role /\
  __init__ account user password warehouse (Some "") schema role =
    __init__ account user password warehouse None schema role /\
  __init__ account user password warehouse database (Some "") role =
    __init__ account user password warehouse database None role /\
  __init__ account user password warehouse database schema (Some "") =
    __init__ account user password warehouse database schema None /\
  (forall k, k ∈ ["warehouse"; "database"; "schema"; "role"] ->
             connection_params client !! k <> Some "") /\
  driver_calls (events_since w (connect drv w).2) =
    [connector_connect (connection_params client)].
Proof.
  intros client w. repeat split; try done.
  - intros k Hk. subst client.
    destruct (init_lookup account user password warehouse database schema role)
      as (_ & _ & _ & Hw & Hd & Hs & Hr).
    repeat (apply elem_of_cons in Hk as [-> | Hk];
            [ first [rewrite Hw | rewrite Hd | rewrite Hs | rewrite Hr];
              apply truthy_str_not_empty |]).
    by apply elem_of_nil in Hk.
  - apply connect_driver_calls.
Qed.

Lemma init_empty_string_as_absent_witness :
  let client :=
    __init__ "test-account" "test-user" "test-password" (Some "") None (Some "") None in
  let w := new_world client in
  __init__ "test-account" "test-user" "test-password" (Some "") None (Some "") None =
    __init__ "test-account" "test-user" "test-password" None None (Some "") None /\
  __init__ "test-account" "test-user" "test-password" (Some "") (Some "") (Some "") None =
    __init__ "test-account" "test-user" "test-password" (Some "") None (Some "") None /\
  __init__ "test-account" "test-user" "test-password" (Some "") None (Some "") None =
    __init__ "test-account" "test-user" "test-password" (Some "") None None None /\
  __init__ "test-account" "test-user" "test-password" (Some "") None (Some "") (Some "") =
    __init__ "test-account" "test-user" "test-password" (Some "") None (Some "") None /\
  (forall k, k ∈ ["warehouse"; "database"; "schema"; "role"] ->
             connection_params client !! k <> Some "") /\
  driver_calls (events_since w (connect answering_driver w).2) =
    [connector_connect (connection_params client)].
Proof.
  exact (init_empty_string_as_absent answering_driver "test-account" "test-user"
           "test-password" (Some "") None (Some "") None []).
Defined.

(** The constructor as the tests call it, with the four optional fields. *)
Example init_all_optionals :
  let params :=
    connection_params
      (__init__ "test-account" "test-user" "test-password" (Some "test-warehouse")
         (Some "test-database") (Some "test-schema") (Some "test-role")) in
  params !! "warehouse" = Some "test-warehouse" /\
  params !! "database" = Some "test-database" /\
  params !! "schema" = Some "test-schema" /\
  params !! "role" = Some "test-role" /\
  size params = 7.
Proof. vm_compute. done. Qed.

(** ** Further properties of the module *)

#[local] Set Warnings "-clear-no-such-hyp".

(** *** The environment *)

Lemma truthy_str_Some (o : option string) (v : string) :
  truthy_str o = Some v <-> o = Some v /\ v <> "".
Proof.
  destruct o as [[| a s] |]; simpl; split; try done.
  - by intros [? ?]; simplify_eq.
  - intros ?; by simplify_eq.
  - by intros [? ?]; simplify_eq.
  - by intros [? ?].
Qed.

(** X1: [create_snowflake_client_from_env] and the check that
    [basic_usage.py] makes before calling it agree.  When no required
    variable is missing (unset or empty) a client is returned; otherwise the
    exception names the first missing variable, in the order account, user,
    password. *)
Theorem create_from_env_names_first_missing environ :
  match missing_vars environ with
  | [] => exists client, create_snowflake_client_from_env environ = Ok client
  | var :: _ =>
      create_snowflake_client_from_env environ = Raise (var +:+ " is not set")
  end.
Proof.
  unfold missing_vars, required_env_vars, create_snowflake_client_from_env.
  rewrite !filter_cons, filter_nil.
  destruct (truthy_str (environ !! "SNOWFLAKE_ACCOUNT")) as [a |] eqn:Ha;
    [rewrite decide_False by done | by rewrite decide_True].
  destruct (truthy_str (environ !! "SNOWFLAKE_USER")) as [u |] eqn:Hu;
    [rewrite decide_False by done | by rewrite decide_True].
  destruct (truthy_str (environ !! "SNOWFLAKE_PASSWORD")) as [p |] eqn:Hp;
    [rewrite decide_False by done | by rewrite decide_True].
  eauto.
Qed.

(** X2: a client built from the environment stores the three required
    variables as they are set, the warehouse and the role when they are set
    and not empty, nothing else, and holds no handle. *)
Theorem create_from_env_stores environ client :
  create_snowflake_client_from_env environ = Ok client ->
  let params := connection_params client in
  let nonempty (o : option string) : option string :=
    match o with
    | Some v => if decide (v = "") then None else Some v
    | None => None
    end in
  connection client = None /\
  params !! "account" = environ !! "SNOWFLAKE_ACCOUNT" /\
  params !! "user" = environ !! "SNOWFLAKE_USER" /\
  params !! "password" = environ !! "SNOWFLAKE_PASSWORD" /\
  params !! "warehouse" = nonempty (environ !! "SNOWFLAKE_WAREHOUSE") /\
  params !! "role" = nonempty (environ !! "SNOWFLAKE_ROLE") /\
  dom params ⊆ {["account"; "user"; "password"; "warehouse"; "role"]}.
Proof.
  intros Hc params nonempty.
  assert (forall o, truthy_str o = nonempty o) as Hne by (by intros [[] |]).
  unfold create_snowflake_client_from_env in Hc.
  destruct (truthy_str (environ !! "SNOWFLAKE_ACCOUNT")) as [a |] eqn:Ha; [| done].
  destruct (truthy_str (environ !! "SNOWFLAKE_USER")) as [u |] eqn:Hu; [| done].
  destruct (truthy_str (environ !! "SNOWFLAKE_PASSWORD")) as [p |] eqn:Hp; [| done].
  apply truthy_str_Some in Ha as [Ha _], Hu as [Hu _], Hp as [Hp _].
  simplify_eq. subst params. rewrite Ha, Hu, Hp, <- !Hne.
  destruct (init_lookup a u p (environ !! "SNOWFLAKE_WAREHOUSE") None None
              (environ !! "SNOWFLAKE_ROLE")) as (? & ? & ? & ? & _ & _ & ?).
  repeat split; try done.
  unfold __init__, store_if_truthy. cbn [connection_params truthy_str].
  destruct (truthy_str (environ !! "SNOWFLAKE_WAREHOUSE")),
    (truthy_str (environ !! "SNOWFLAKE_ROLE")); rewrite ?dom_insert_L, dom_empty_L;
    set_solver.
Qed.

Lemma create_from_env_stores_witness :
  let client :=
    __init__ "test-account" "test-user" "test-password" (Some "test-warehouse")
      None None (Some "test-role") in
  let params := connection_params client in
  let nonempty (o : option string) : option string :=
    match o with
    | Some v => if decide (v = "") then None else Some v
    | None => None
    end in
  connection client = None /\
  params !! "account" = sample_environ !! "SNOWFLAKE_ACCOUNT" /\
  params !! "user" = sample_environ !! "SNOWFLAKE_USER" /\
  params !! "password" = sample_environ !! "SNOWFLAKE_PASSWORD" /\
  params !! "warehouse" = nonempty (sample_environ !! "SNOWFLAKE_WAREHOUSE") /\
  params !! "role" = nonempty (sample_environ !! "SNOWFLAKE_ROLE") /\
  dom params ⊆ {["account"; "user"; "password"; "warehouse"; "role"]}.
Proof.
  apply (create_from_env_stores sample_environ). reflexivity.
Defined.

(** *** The constructor *)

(** X3: the keys that [__init__] stores are the three required ones and,
    for each optional field that is supplied and not empty, its own key:
    never another key, and between three and seven in all. *)
Theorem init_keys account user password warehouse database schema role :
  let params :=
    connection_params (__init__ account user password warehouse database schema role) in
  dom params =
    {["account"; "user"; "password"]} ∪ optional_key "warehouse" warehouse
      ∪ optional_key "database" database ∪ optional_key "schema" schema
      ∪ optional_key "role" role /\
  3 <= size params <= 7.
Proof.
  intros params. subst params.
  unfold __init__, store_if_truthy, optional_key. cbn [connection_params].
  destruct (truthy_str warehouse), (truthy_str database), (truthy_str schema),
    (truthy_str role).
  all: split; [rewrite ?dom_insert_L, dom_empty_L; set_solver |].
  all: rewrite <- size_dom, ?dom_insert_L, dom_empty_L.
  all: rewrite ?size_union, ?size_singleton, ?size_empty by set_solver; lia.
Qed.

(** *** Connecting *)

(** X4: when the driver returns a handle, [connect] returns and the client
    holds that handle, with the same parameters.  The driver call is the one
    [connect]: a handle held before is replaced without being closed. *)
Theorem connect_success_replaces_handle drv w h :
  on_connect drv (driver_calls (trace w)) (connection_params (self w)) = Ok h ->
  let run := connect drv w in
  run.1 = Ok tt /\
  self run.2 =
    {| connection_params := connection_params (self w); connection := Some h |} /\
  driver_calls (events_since w run.2) =
    [connector_connect (connection_params (self w))].
Proof.
  intros Hdrv run.
  destruct (wp_elim _ _ _ (connect_spec drv w)) as (Hp & Hd & H).
  fold run in Hp, Hd, H. rewrite Hdrv in H, Hd. destruct H as [Hr Hc].
  repeat split; [done | | by rewrite Hd].
  destruct (self run.2). simpl in *. by subst.
Qed.

Lemma connect_success_replaces_handle_witness :
  let w := connected_world answering_driver in
  let run := connect answering_driver w in
  run.1 = Ok tt /\
  self run.2 =
    {| connection_params := connection_params (self w); connection := Some 2 |} /\
  driver_calls (events_since w run.2) =
    [connector_connect (connection_params (self w))].
Proof.
  apply (connect_success_replaces_handle answering_driver
           (connected_world answering_driver) 2).
  reflexivity.
Defined.

(** X5: [connect] followed by [disconnect], when the driver answers both,
    closes the very handle that [connect] returned and brings the client
    back to Unconnected with its parameters unchanged.  The driver sees the
    two calls and nothing else. *)
Theorem connect_then_disconnect drv w h :
  let kwargs := connection_params (self w) in
  on_connect drv (driver_calls (trace w)) kwargs = Ok h ->
  on_connection_close drv (driver_calls (trace w) ++ [connector_connect kwargs]) h
    = Ok tt ->
  let run := (connect drv ;; disconnect drv) w in
  run.1 = Ok tt /\
  self run.2 = {| connection_params := kwargs; connection := None |} /\
  driver_calls (events_since w run.2) = [connector_connect kwargs; connection_close h].
Proof.
  intros kwargs Hconnect Hclose run.
  assert (wp (connect drv ;; disconnect drv) w (fun r w' d =>
            r = Ok tt /\
            self w' = {| connection_params := kwargs; connection := None |} /\
            driver_calls d = [connector_connect kwargs; connection_close h])) as H.
  { unfold connect, disconnect. wp_run. wp_simpl. fold kwargs.
    rewrite Hconnect. wp_run. wp_simpl. fold kwargs. wp_step. wp_step. wp_simpl.
    fold kwargs. rewrite Hclose. by wp_run. }
  by apply wp_elim in H.
Qed.


Lemma connect_then_disconnect_witness :
  let w := new_world sample_client in
  let kwargs := connection_params (self w) in
  let run := (connect answering_driver ;; disconnect answering_driver) w in
  run.1 = Ok tt /\
  self run.2 = {| connection_params := kwargs; connection := None |} /\
  driver_calls (events_since w run.2) = [connector_connect kwargs; connection_close 1].
Proof.
  apply (connect_then_disconnect answering_driver (new_world sample_client) 1);
    reflexivity.
Defined.

(** *** Leaving a scope *)

Lemma exit_closes drv exc w :
  wp (__exit__ drv exc) w (fun r w' d =>
    match connection (self w) with
    | None => r = Ok tt /\ connection (self w') = None /\ driver_calls d = []
    | Some h =>
        driver_calls d = [connection_close h] /\
        match on_connection_close drv (driver_calls (trace w)) h with
        | Ok _ => r = Ok tt /\ connection (self w') = None
        | Raise e => r = Raise e /\ connection (self w') = Some h
        end
    end).
Proof.
  unfold __exit__. wp_run.
  eapply wp_mono; [apply disconnect_spec |]. intros r w' d (_ & _ & H).
  cbn [self trace] in H. autorewrite with history in H.
  change (driver_calls ([Call m_exit] ++ d)) with (driver_calls d). exact H.
Qed.

(** X6: once the scope is entered, leaving it closes the handle that the
    client holds at that moment, and makes no other driver call.  When the
    close returns, the client is Unconnected and the scope yields what the
    body yielded: its value, or its exception, which is not suppressed.  When
    the close raises, that exception is the one that leaves the scope, and
    the handle is kept. *)
Theorem with_client_leaves_scope drv (A : Type) (body : M A) w :
  (__enter__ drv w).1 = Ok tt ->
  let after := body (__enter__ drv w).2 in
  let final := with_client drv body w in
  match connection (self after.2) with
  | None =>
      final.1 = after.1 /\
      connection (self final.2) = None /\
      driver_calls (events_since after.2 final.2) = []
  | Some h =>
      driver_calls (events_since after.2 final.2) = [connection_close h] /\
      match on_connection_close drv (driver_calls (trace after.2)) h with
      | Ok _ => final.1 = after.1 /\ connection (self final.2) = None
      | Raise e => final.1 = Raise e /\ connection (self final.2) = Some h
      end
  end.
Proof.
  intros Henter after final. subst after final.
  unfold with_client. rewrite bind_run.
  destruct (__enter__ drv w) as [[[] | e] w1]; [| done]. cbn [fst snd].
  destruct (body w1) as [[a | e] wb]; cbn [fst snd]; rewrite bind_run.
  - pose proof (wp_elim _ _ _ (exit_closes drv None wb)) as H. cbn beta in H.
    destruct (__exit__ drv None wb) as [[[] | e] wf]; cbn [fst snd ret raise] in *.
    all: destruct (connection (self wb));
      [ destruct H as [? H]; destruct (on_connection_close drv _ _); destruct H
      | destruct H as (? & ? & ?) ]; by simplify_eq.
  - pose proof (wp_elim _ _ _ (exit_closes drv (Some e) wb)) as H. cbn beta in H.
    destruct (__exit__ drv (Some e) wb) as [[[] | e'] wf]; cbn [fst snd ret raise] in *.
    all: destruct (connection (self wb));
      [ destruct H as [? H]; destruct (on_connection_close drv _ _); destruct H
      | destruct H as (? & ? & ?) ]; by simplify_eq.
Qed.

Lemma with_client_leaves_scope_witness :
  let w := new_world sample_client in
  let after := raise (A := unit) "boom" (__enter__ answering_driver w).2 in
  let final := with_client answering_driver (raise (A := unit) "boom") w in
  match connection (self after.2) with
  | None =>
      final.1 = after.1 /\
      connection (self final.2) = None /\
      driver_calls (events_since after.2 final.2) = []
  | Some h =>
      driver_calls (events_since after.2 final.2) = [connection_close h] /\
      match on_connection_close answering_driver (driver_calls (trace after.2)) h with
      | Ok _ => final.1 = after.1 /\ connection (self final.2) = None
      | Raise e => final.1 = Raise e /\ connection (self final.2) = Some h
      end
  end.
Proof.
  apply (with_client_leaves_scope answering_driver unit (raise "boom")
           (new_world sample_client)).
  reflexivity.
Defined.

(** *** Queries *)

(** X7: when the lazy connect of [execute_query] fails, the call raises the
    driver's exception at once: the driver saw the connect and nothing else,
    no cursor was opened, the context was not initialized, and the client is
    as it was (Unconnected). *)
Theorem execute_query_connect_failure drv w query params init e :
  connection (self w) = None ->
  on_connect drv (driver_calls (trace w)) (connection_params (self w)) = Raise e ->
  let run := execute_query drv query params init w in
  let d := events_since w run.2 in
  run.1 = Raise e /\
  self run.2 = self w /\
  driver_calls d = [connector_connect (connection_params (self w))] /\
  calls_of m_initialize_context d = 0.
Proof.
  intros Hconn Hdrv run d.
  destruct (wp_elim _ _ _ (execute_query_unconnected drv w query params init Hconn))
    as (d' & Hd & H).
  fold run in Hd, H. fold d in Hd. rewrite Hdrv in H, Hd. destruct H as (Hr & -> & Hs).
  rewrite Hd. by destruct e.
Qed.

Lemma execute_query_connect_failure_witness :
  let w := new_world sample_client in
  let run := execute_query refusing_driver "SELECT 1" None (Some sample_init) w in
  let d := events_since w run.2 in
  run.1 = Raise "connection refused" /\
  self run.2 = self w /\
  driver_calls d = [connector_connect (connection_params (self w))] /\
  calls_of m_initialize_context d = 0.
Proof.
  apply (execute_query_connect_failure refusing_driver (new_world sample_client));
    reflexivity.
Defined.

Lemma execute_query_issues_context drv w query params init :
  wp (execute_query drv query params init) w (fun r _ d =>
    statements d `prefix_of` context_statements init ++ [query] /\
    (is_ok r = true -> statements d = context_statements init ++ [query])).
Proof.
  destruct (connection (self w)) as [h |] eqn:Hconn.
  - eapply wp_mono; [by eapply runs_execute_query |].
    by intros r w' d (_ & _ & _ & Hp & Hok).
  - eapply wp_mono; [by apply execute_query_unconnected |].
    intros r w' d (d' & -> & H).
    change (statements (_ :: _ :: _ :: ?l)) with (statements l).
    rewrite statements_app, statements_connect_log, app_nil_l.
    destruct (on_connect drv _ _).
    + by destruct H as (_ & _ & _ & Hp & Hok).
    + destruct H as (-> & -> & _). split; [apply prefix_nil | done].
Qed.

(** X8: for every [init] (absent, empty, or with any keys), the texts that
    [execute_query] hands to the driver are the context statements of
    [init] followed by the query: a USE DATABASE when [init] has a non-empty
    database, then a USE SCHEMA when it has a non-empty schema.  Always the
    first few of them, and all of them when the call returns. *)
Theorem execute_query_statements drv w query params init :
  let run := execute_query drv query params init w in
  let issued := statements (events_since w run.2) in
  issued `prefix_of` context_statements init ++ [query] /\
  (is_ok run.1 = true -> issued = context_statements init ++ [query]).
Proof.
  intros run issued. subst run issued.
  apply (wp_elim _ _ _ (execute_query_issues_context drv w query params init)).
Qed.

(** X9: [create_database] hands the driver one text, CREATE DATABASE
    followed by the name exactly as given: no quoting, and no test of the
    name, so an empty name is sent too.  When it returns, that statement was
    issued and the value is [None]. *)
Theorem create_database_statement drv w database_name :
  let run := create_database drv database_name w in
  let issued := statements (events_since w run.2) in
  issued `prefix_of` ["CREATE DATABASE " +:+ database_name] /\
  (is_ok run.1 = true ->
   issued = ["CREATE DATABASE " +:+ database_name] /\ run.1 = Ok tt).
Proof.
  intros run issued. subst run issued.
  apply (wp_elim (create_database drv database_name) w (fun r _ d =>
    statements d `prefix_of` ["CREATE DATABASE " +:+ database_name] /\
    (is_ok r = true ->
     statements d = ["CREATE DATABASE " +:+ database_name] /\ r = Ok tt))).
  unfold create_database. apply wp_bind.
  eapply wp_mono; [apply execute_query_issues_context |].
  intros [rows | e] w' d [Hp Hok]; cbn beta iota; [| done].
  wp_run. rewrite app_nil_r. split; [done |]. intros _. split; [by apply Hok | done].
Qed.

(** *** What a query leaves alone *)

Section Confined.

Variable drv : Driver.
Variable P : Event -> Prop.
Hypothesis P_out : forall o, P (Out o).

Lemma stays_ret {A : Type} (a : A) w : wp (ret a) w (stays P (self w)).
Proof. by apply wp_ret. Qed.

Lemma stays_record e w : P e -> wp (record e) w (stays P (self w)).
Proof. intros He. apply wp_record. split; [done |]. by repeat constructor. Qed.

Lemma stays_bind {A B : Type} (m : M A) (k : A -> M B) w :
  wp m w (stays P (self w)) ->
  (forall a w1, self w1 = self w -> wp (k a) w1 (stays P (self w1))) ->
  wp (bind m k) w (stays P (self w)).
Proof.
  intros Hm Hk. apply wp_bind. eapply wp_mono; [apply Hm |].
  intros [a | e] w1 d1 [Hs H1]; cbn beta iota; [| done].
  eapply wp_mono; [by apply Hk |]. intros r w2 d2 [Hs2 H2]; cbn beta.
  split; [congruence | by apply Forall_app].
Qed.

Lemma stays_try_except {A : Type} (m : M A) (msg : Exn -> string) w :
  wp m w (stays P (self w)) ->
  wp (try_except m (fun e => logger_error (msg e) ;; raise e)) w (stays P (self w)).
Proof.
  intros Hm. apply wp_try_except. eapply wp_mono; [apply Hm |].
  intros [a | [e | e]] w1 d1 [Hs H1]; cbn beta iota; [done | | done].
  wp_run. split; [done |]. rewrite app_nil_r. apply Forall_app. split; [done |].
  by repeat constructor.
Qed.

End Confined.

(** Symbolic execution that branches on every answer of the driver and on
    every test of the code. *)
Ltac wp_branch :=
  lazymatch goal with
  | |- match ?x with _ => _ end => destruct x eqn:?
  | |- wp (match ?x with _ => _ end) _ _ => destruct x eqn:?
  end.

Ltac wp_explore := repeat (first [wp_step | wp_branch]; cbn beta iota; wp_simpl).

Section OnHandle.

Variable drv : Driver.
Variable h : Handle.

Lemma execute_and_fetch_on_handle w query params :
  connection (self w) = Some h ->
  wp (execute_and_fetch drv query params) w (stays (on_handle h) (self w)).
Proof.
  intros Hconn. unfold execute_and_fetch, stays.
  do 3 (wp_step; cbn beta iota). rewrite Hconn.
  wp_explore.
  all: split; [done |]; repeat constructor.
Qed.

Lemma execute_query_no_init_on_handle w query params :
  connection (self w) = Some h ->
  wp (execute_query_no_init drv query params) w (stays (on_handle h) (self w)).
Proof.
  intros Hconn. unfold execute_query_no_init, execute_query_with.
  wp_run. wp_simpl. rewrite Hconn. wp_run. cbn [truthy_dict]. wp_run.
  eapply wp_mono; [by apply execute_and_fetch_on_handle |].
  intros r w' d [Hs H]. wp_simpl. split; [done |]. constructor; [by left | done].
Qed.

Lemma initialize_context_on_handle w database schema :
  connection (self w) = Some h ->
  wp (initialize_context drv database schema) w (stays (on_handle h) (self w)).
Proof.
  intros Hconn. unfold initialize_context, initialize_context_with.
  apply stays_bind; [apply stays_record; by right |].
  intros _ w1 Hw1. apply stays_try_except; [done |]. apply stays_bind.
  - destruct (truthy_str database) as [db |]; [| apply stays_ret].
    apply stays_bind.
    + apply execute_query_no_init_on_handle. by rewrite Hw1.
    + intros _ w2 _. by apply stays_record.
  - intros _ w2 Hw2. destruct (truthy_str schema) as [sc |]; [| apply stays_ret].
    apply stays_bind.
    + apply execute_query_no_init_on_handle. by rewrite Hw2, Hw1.
    + intros _ w3 _. by apply stays_record.
Qed.

Lemma context_then_query_on_handle w query params init :
  connection (self w) = Some h ->
  wp (match truthy_dict init with
      | Some d => initialize_context drv (d !! "database") (d !! "schema")
      | None => ret tt
      end ;;
      execute_and_fetch drv query params)
     w (stays (on_handle h) (self w)).
Proof.
  intros Hconn. apply stays_bind.
  - destruct (truthy_dict init) as [d |]; [| apply stays_ret].
    by apply initialize_context_on_handle.
  - intros _ w1 Hw1. apply execute_and_fetch_on_handle. by rewrite Hw1.
Qed.

Lemma execute_query_on_handle w query params init :
  connection (self w) = Some h ->
  wp (execute_query drv query params init) w (stays (on_handle h) (self w)).
Proof.
  intros Hconn. unfold execute_query, execute_query_with.
  do 4 (wp_step; cbn beta iota). wp_simpl. rewrite Hconn.
  do 2 (wp_step; cbn beta iota).
  eapply wp_mono; [by apply context_then_query_on_handle |].
  intros r w' d [Hs H]. wp_simpl. split; [done |]. constructor; [by left | done].
Qed.

End OnHandle.

(** X10: on a client that holds a handle, [execute_query] works on that
    handle only: whether it returns or raises, it never calls [connect] or
    [disconnect], never closes the connection, opens cursors on that handle
    and no other, and leaves the client object as it was.  A failed query
    does not disconnect the client. *)
Theorem execute_query_stays_on_handle drv w query params init h :
  connection (self w) = Some h ->
  let run := execute_query drv query params init w in
  self run.2 = self w /\
  Forall (on_handle h) (events_since w run.2).
Proof.
  intros Hconn run.
  apply (wp_elim _ _ _ (execute_query_on_handle drv h w query params init Hconn)).
Qed.

Lemma execute_query_stays_on_handle_witness :
  let w := connected_world failing_execute_driver in
  let run :=
    execute_query failing_execute_driver "SELECT 1" None (Some sample_init) w in
  self run.2 = self w /\
  Forall (on_handle 1) (events_since w run.2).
Proof.
  apply (execute_query_stays_on_handle failing_execute_driver
           (connected_world failing_execute_driver) "SELECT 1" None (Some sample_init) 1).
  reflexivity.
Defined.

(** X11: when the lazy connect of [execute_query] succeeds, the client
    holds the new handle from then on, also when the query that follows
    raises; after the connect, the run works on that handle only. *)
Theorem execute_query_lazy_connect_keeps_handle drv w query params init h :
  connection (self w) = None ->
  on_connect drv (driver_calls (trace w)) (connection_params (self w)) = Ok h ->
  let run := execute_query drv query params init w in
  self run.2 =
    {| connection_params := connection_params (self w); connection := Some h |} /\
  exists rest,
    events_since w run.2 =
      [Call m_execute_query; Call m_connect;
       Drv (connector_connect (connection_params (self w)));
       Out (log_info "Successfully connected to Snowflake")] ++ rest /\
    Forall (on_handle h) rest.
Proof.
  intros Hconn Hdrv run.
  assert (wp (execute_query drv query params init) w (fun r w' d =>
            self w' =
              {| connection_params := connection_params (self w);
                 connection := Some h |} /\
            exists rest,
              d = [Call m_execute_query; Call m_connect;
                   Drv (connector_connect (connection_params (self w)));
                   Out (log_info "Successfully connected to Snowflake")] ++ rest /\
              Forall (on_handle h) rest)) as H.
  { unfold execute_query, execute_query_with.
    do 4 (wp_step; cbn beta iota). wp_simpl. rewrite Hconn. wp_step.
    unfold connect. do 7 (wp_step; cbn beta iota). wp_simpl. rewrite Hdrv.
    do 3 (wp_step; cbn beta iota). wp_simpl.
    eapply wp_mono; [by eapply (context_then_query_on_handle drv h) |].
    intros r w' d [Hs H]. cbn [self] in Hs. eauto. }
  by apply wp_elim in H.
Qed.

Lemma execute_query_lazy_connect_keeps_handle_witness :
  let w := new_world sample_client in
  let run := execute_query failing_execute_driver "SELECT 1" None None w in
  self run.2 =
    {| connection_params := connection_params (self w); connection := Some 1 |} /\
  exists rest,
    events_since w run.2 =
      [Call m_execute_query; Call m_connect;
       Drv (connector_connect (connection_params (self w)));
       Out (log_info "Successfully connected to Snowflake")] ++ rest /\
    Forall (on_handle 1) rest.
Proof.
  apply (execute_query_lazy_connect_keeps_handle failing_execute_driver
           (new_world sample_client) "SELECT 1" None None 1);
    reflexivity.
Defined.

(** *** Failures and the log *)

Lemma logged_ok {A : Type} (a : A) w d : logged (Ok a) w d.
Proof. by intros msg. Qed.

Lemma logged_bind {A B : Type} (m : M A) (k : A -> M B) w :
  wp m w logged ->
  (forall a w1, wp (k a) w1 logged) ->
  wp (bind m k) w logged.
Proof.
  intros Hm Hk. apply wp_bind. eapply wp_mono; [apply Hm |].
  intros [a | e] w1 d1 H1; cbn beta iota; [| intros msg [= ->]; by apply H1].
  eapply wp_mono; [apply Hk |]. intros r w2 d2 H2 msg ->.
  destruct (H2 msg eq_refl) as [prefix Hlast]. exists prefix.
  by rewrite last_app, Hlast.
Qed.

(** An [except] clause that logs the exception and raises it again. *)
Lemma logged_try_except {A : Type} (m : M A) (prefix : string) w :
  wp m w (fun _ _ _ => True) ->
  wp (try_except m (fun e => logger_error (prefix +:+ str e) ;; raise e)) w logged.
Proof.
  intros Hm. apply wp_try_except. eapply wp_mono; [apply Hm |].
  intros [a | [e | e]] w1 d1 _; cbn beta iota; [apply logged_ok | | done].
  wp_run. intros e' [= <-]. exists prefix. by rewrite app_nil_r, last_snoc.
Qed.

Lemma unlogged_ok {A : Type} (a : A) w : unlogged (Ok a) w [].
Proof. constructor. Qed.

Lemma unlogged_record e w : no_error_line e -> wp (record e) w unlogged.
Proof. intros He. apply wp_record. by repeat constructor. Qed.

Lemma unlogged_bind {A B : Type} (m : M A) (k : A -> M B) w :
  wp m w unlogged ->
  (forall a w1, wp (k a) w1 unlogged) ->
  wp (bind m k) w unlogged.
Proof.
  intros Hm Hk. apply wp_bind. eapply wp_mono; [apply Hm |].
  intros [a | e] w1 d1 H1; cbn beta iota; [| by destruct e].
  eapply wp_mono; [apply Hk |].
  intros [b | [e | e]] w2 d2 H2; try done; by apply Forall_app.
Qed.

(** An [except] clause that logs and raises again is the only place where
    an error line is written, and it is reached by an [Exception] only. *)
Lemma unlogged_try_except {A : Type} (m : M A) (text : Exn -> string) w :
  wp m w unlogged ->
  wp (try_except m (fun e => logger_error (text e) ;; raise e)) w unlogged.
Proof.
  intros Hm. apply wp_try_except. eapply wp_mono; [apply Hm |].
  intros [a | [e | e]] w1 d1 H1; cbn beta iota; [done | | done].
  by wp_run.
Qed.

Lemma wp_true_of {A : Type} (m : M A) w Q : wp m w Q -> wp m w (fun _ _ _ => True).
Proof. intros H. eapply wp_mono; [apply H | done]. Qed.

Section Logged.

Variable drv : Driver.

Lemma connect_logged w : wp (connect drv) w logged.
Proof.
  unfold connect. apply logged_bind; [apply wp_record, logged_ok |].
  intros _ w1. apply logged_try_except. by wp_explore.
Qed.

Lemma execute_and_fetch_logged w query params :
  wp (execute_and_fetch drv query params) w logged.
Proof.
  unfold execute_and_fetch. apply logged_try_except. by wp_explore.
Qed.

Lemma execute_query_no_init_logged w query params :
  wp (execute_query_no_init drv query params) w logged.
Proof.
  unfold execute_query_no_init, execute_query_with.
  apply logged_bind; [apply wp_record, logged_ok |]. intros _ w1.
  apply logged_bind; [apply wp_get_connection, logged_ok |]. intros conn w2.
  apply logged_bind.
  { destruct conn; [apply wp_ret, logged_ok | apply connect_logged]. }
  intros _ w3. cbn [truthy_dict].
  apply logged_bind; [apply wp_ret, logged_ok |]. intros _ w4.
  apply execute_and_fetch_logged.
Qed.

Lemma wp_true_execute_query_no_init w query params :
  wp (execute_query_no_init drv query params) w (fun _ _ _ => True).
Proof. eapply wp_true_of, execute_query_no_init_logged. Qed.

Lemma initialize_context_logged w database schema :
  wp (initialize_context drv database schema) w logged.
Proof.
  unfold initialize_context, initialize_context_with.
  apply logged_bind; [apply wp_record, logged_ok |]. intros _ w1.
  apply logged_try_except.
  apply wp_bind.
  destruct (truthy_str database) as [db |].
  - apply wp_bind. eapply wp_mono; [apply wp_true_execute_query_no_init |].
    intros [rows | e] w2 d2 _; cbn beta iota; [| done].
    wp_run. destruct (truthy_str schema) as [sc |]; [| by wp_run].
    apply wp_bind. eapply wp_mono; [apply wp_true_execute_query_no_init |].
    intros [rows' | e] w3 d3 _; cbn beta iota; [by wp_run | done].
  - wp_run. destruct (truthy_str schema) as [sc |]; [| by wp_run].
    apply wp_bind. eapply wp_mono; [apply wp_true_execute_query_no_init |].
    intros [rows' | e] w3 d3 _; cbn beta iota; [by wp_run | done].
Qed.

Lemma execute_query_logged w query params init :
  wp (execute_query drv query params init) w logged.
Proof.
  unfold execute_query, execute_query_with.
  apply logged_bind; [apply wp_record, logged_ok |]. intros _ w1.
  apply logged_bind; [apply wp_get_connection, logged_ok |]. intros conn w2.
  apply logged_bind.
  { destruct conn; [apply wp_ret, logged_ok | apply connect_logged]. }
  intros _ w3. apply logged_bind.
  { destruct (truthy_dict init);
      [apply initialize_context_logged | apply wp_ret, logged_ok]. }
  intros _ w4. apply execute_and_fetch_logged.
Qed.

Lemma connect_unlogged w : wp (connect drv) w unlogged.
Proof. unfold connect, unlogged. wp_explore. all: by repeat constructor. Qed.

Lemma execute_and_fetch_unlogged w query params :
  wp (execute_and_fetch drv query params) w unlogged.
Proof. unfold execute_and_fetch, unlogged. wp_explore. all: by repeat constructor. Qed.

Lemma execute_query_no_init_unlogged w query params :
  wp (execute_query_no_init drv query params) w unlogged.
Proof.
  unfold execute_query_no_init, execute_query_with.
  apply unlogged_bind; [by apply unlogged_record |]. intros _ w1.
  apply unlogged_bind; [apply wp_get_connection, unlogged_ok |]. intros conn w2.
  apply unlogged_bind.
  { destruct conn; [apply wp_ret, unlogged_ok | apply connect_unlogged]. }
  intros _ w3. cbn [truthy_dict].
  apply unlogged_bind; [apply wp_ret, unlogged_ok |]. intros _ w4.
  apply execute_and_fetch_unlogged.
Qed.

Lemma initialize_context_unlogged w database schema :
  wp (initialize_context drv database schema) w unlogged.
Proof.
  unfold initialize_context, initialize_context_with.
  apply unlogged_bind; [by apply unlogged_record |]. intros _ w1.
  apply unlogged_try_except, unlogged_bind.
  - destruct (truthy_str database) as [db |]; [| apply wp_ret, unlogged_ok].
    apply unlogged_bind; [apply execute_query_no_init_unlogged |].
    intros _ w2. by apply unlogged_record.
  - intros _ w2. destruct (truthy_str schema) as [sc |]; [| apply wp_ret, unlogged_ok].
    apply unlogged_bind; [apply execute_query_no_init_unlogged |].
    intros _ w3. by apply unlogged_record.
Qed.

Lemma execute_query_unlogged w query params init :
  wp (execute_query drv query params init) w unlogged.
Proof.
  unfold execute_query, execute_query_with.
  apply unlogged_bind; [by apply unlogged_record |]. intros _ w1.
  apply unlogged_bind; [apply wp_get_connection, unlogged_ok |]. intros conn w2.
  apply unlogged_bind.
  { destruct conn; [apply wp_ret, unlogged_ok | apply connect_unlogged]. }
  intros _ w3. apply unlogged_bind.
  { destruct (truthy_dict init);
      [apply initialize_context_unlogged | apply wp_ret, unlogged_ok]. }
  intros _ w4. apply execute_and_fetch_unlogged.
Qed.

End Logged.

(** X12: the [except Exception] clauses of [connect],
    [initialize_context] and [execute_query] log and raise again.  Whenever
    one of these methods raises an instance of [Exception], the last thing
    it did was to write an error line that ends with the message of the
    exception it raises.  An exception that is no instance of [Exception]
    (a [KeyboardInterrupt], a [SystemExit]) is not caught: it leaves the
    method with no error line written, as does a run that returns. *)
Theorem failures_are_logged drv w query params init database schema :
  let c := connect drv w in
  let i := initialize_context drv database schema w in
  let q := execute_query drv query params init w in
  (logged c.1 c.2 (events_since w c.2) /\ unlogged c.1 c.2 (events_since w c.2)) /\
  (logged i.1 i.2 (events_since w i.2) /\ unlogged i.1 i.2 (events_since w i.2)) /\
  (logged q.1 q.2 (events_since w q.2) /\ unlogged q.1 q.2 (events_since w q.2)).
Proof.
  intros c i q. subst c i q. repeat split.
  - apply (wp_elim _ _ _ (connect_logged drv w)).
  - apply (wp_elim _ _ _ (connect_unlogged drv w)).
  - apply (wp_elim _ _ _ (initialize_context_logged drv w database schema)).
  - apply (wp_elim _ _ _ (initialize_context_unlogged drv w database schema)).
  - apply (wp_elim _ _ _ (execute_query_logged drv w query params init)).
  - apply (wp_elim _ _ _ (execute_query_unlogged drv w query params init)).
Qed.

(** An interrupt during the driver's [connect] leaves [connect] as it is,
    and nothing is written to the log. *)
Example interrupted_connect_is_not_logged :
  let run := connect interrupted_driver (new_world sample_client) in
  run.1 = Raise (base_exception "KeyboardInterrupt") /\
  trace run.2 =
    [Call m_connect; Drv (connector_connect (connection_params sample_client))].
Proof. vm_compute. done. Qed.

(** A failing USE DATABASE under [execute_query]: the error is logged by the
    inner [execute_query] and again by [initialize_context]. *)
Example failing_context_is_logged_twice :
  let w := connected_world failing_execute_driver in
  let run :=
    execute_query failing_execute_driver "SELECT 1" None (Some sample_init) w in
  run.1 = Raise "SQL compilation error" /\
  statements (events_since w run.2) = ["USE DATABASE D"] /\
  omap (fun e => match e with Out (log_error msg) => Some msg | _ => None end)
       (events_since w run.2) =
    ["Failed to execute query: SQL compilation error";
     "Failed to initialize context: SQL compilation error"].
Proof. vm_compute. done. Qed.

(** X13: [disconnect] is the exception: when the handle's [close] raises,
    the exception leaves [disconnect] with nothing written to the log.  The
    events of the call are its entry and the driver call. *)
Theorem disconnect_failure_not_logged drv w h e :
  connection (self w) = Some h ->
  on_connection_close drv (driver_calls (trace w)) h = Raise e ->
  let run := disconnect drv w in
  run.1 = Raise e /\
  events_since w run.2 = [Call m_disconnect; Drv (connection_close h)].
Proof.
  intros Hconn Hclose run.
  assert (wp (disconnect drv) w (fun r w' d =>
            r = Raise e /\ d = [Call m_disconnect; Drv (connection_close h)])) as H.
  { unfold disconnect. wp_run. wp_simpl. rewrite Hconn. wp_run. wp_simpl.
    rewrite Hclose. done. }
  by apply wp_elim in H.
Qed.

Lemma disconnect_failure_not_logged_witness :
  let w := connected_world close_fails_driver in
  let run := disconnect close_fails_driver w in
  run.1 = Raise "close failed" /\
  events_since w run.2 = [Call m_disconnect; Drv (connection_close 1)].
Proof.
  apply (disconnect_failure_not_logged close_fails_driver
           (connected_world close_fails_driver) 1 "close failed");
    reflexivity.
Defined.

(** *** Scoped sessions *)

Lemma wp_trace {A : Type} (m : M A) w Q :
  wp m w Q -> wp m w (fun r w' d => trace w' = trace w ++ d /\ Q r w' d).
Proof. intros (d & Ht & HQ). by exists d. Qed.

Lemma wp_lift {A : Type} (r : Res A) w Q : Q r w [] -> wp (lift r) w Q.
Proof. intros HQ. exists []. simpl. by rewrite app_nil_r. Qed.

Lemma wp_bind_client c w Q :
  Q (Ok tt) {| self := c; trace := trace w |} [] -> wp (bind_client c) w Q.
Proof. intros HQ. exists []. simpl. by rewrite app_nil_r. Qed.

Lemma wp_print msg w Q :
  Q (Ok tt) {| self := self w; trace := trace w ++ [Out (print_line msg)] |}
    [Out (print_line msg)] ->
  wp (print msg) w Q.
Proof. apply wp_record. Qed.

(** The part of [with_client] that runs once the scope is entered. *)
Lemma wp_scope drv {A : Type} (body : M A) w Q :
  wp body w (fun rb wb db =>
    wp (__exit__ drv None) wb (fun rx wf dx =>
      Q (match rx with Ok _ => rb | Raise e => Raise e end) wf (db ++ dx))) ->
  wp (fun w0 =>
        match body w0 with
        | (Ok a, w') => (__exit__ drv None ;; ret a) w'
        | (Raise e, w') => (__exit__ drv (Some e) ;; raise e) w'
        end) w Q.
Proof.
  unfold wp. intros (db & Htb & H).
  destruct (body w) as [[a | e] wb]; cbn [fst snd] in *.
  all: destruct H as (dx & Htx & HQ); exists (db ++ dx); rewrite bind_run.
  - destruct (__exit__ drv None wb) as [[[] | e] wf]; cbn [fst snd ret] in *;
      by rewrite Htx, Htb, app_assoc.
  - change (__exit__ drv (Some e)) with (__exit__ drv None).
    destruct (__exit__ drv None wb) as [[[] | e'] wf]; cbn [fst snd raise] in *;
      by rewrite Htx, Htb, app_assoc.
Qed.

Lemma Forall_driver_calls (P : Event -> Prop) (d : list Event) :
  Forall P d -> Forall (fun c => P (Drv c)) (driver_calls d).
Proof.
  induction 1 as [| e d He _ IH]; [constructor |].
  destruct e; simpl; auto.
Qed.

(** A scope around a body that only queries. *)
Lemma with_client_session_spec drv {A : Type} (body : M A) w :
  (forall h w1, connection (self w1) = Some h ->
                wp body w1 (stays (on_handle h) (self w1))) ->
  wp (with_client drv body) w (fun r w' d =>
    let kwargs := connection_params (self w) in
    match on_connect drv (driver_calls (trace w)) kwargs with
    | Raise e => r = Raise e /\ driver_calls d = [connector_connect kwargs]
    | Ok h =>
        exists mid,
          driver_calls d = connector_connect kwargs :: mid ++ [connection_close h] /\
          Forall (fun c => on_handle h (Drv c)) mid
    end).
Proof.
  intros Hbody. unfold with_client, __enter__.
  do 3 (wp_step; cbn beta iota).
  eapply wp_mono; [apply connect_spec |].
  intros r w1 d1 (Hp & -> & H). cbn [self trace] in H |- *.
  autorewrite with history in H |- *. cbn [self] in *.
  destruct (on_connect drv _ _) as [h | e]; destruct H as [-> Hc]; cbn beta iota;
    [| by destruct e].
  cbn [connect_log]. apply wp_scope. eapply wp_mono; [by apply (Hbody h) |].
  intros rb wb db [Hs Hdb]; cbn beta.
  eapply wp_mono; [apply exit_closes |]. intros rx wf dx Hx; cbn beta.
  rewrite Hs, Hc in Hx. destruct Hx as [Hdx _].
  exists (driver_calls db). split; [| by apply Forall_driver_calls].
  cbn [app]. change (driver_calls (Call m_enter :: Call m_connect :: ?l))
    with (driver_calls l).
  change (driver_calls (Drv ?c :: Out ?o :: ?l)) with (c :: driver_calls l).
  by rewrite driver_calls_app, Hdx.
Qed.

(** X14: a scope around a body that only queries never leaks the
    connection.  If the connect on entry fails, its exception leaves the
    scope and the driver saw nothing else.  Otherwise the driver sees the
    connect, then the calls of the body on the new handle, then one close of
    that handle as the last call: whether the body returned or raised. *)
Theorem with_client_session drv (A : Type) (body : M A) w :
  (forall h w1, connection (self w1) = Some h ->
                wp body w1 (stays (on_handle h) (self w1))) ->
  let kwargs := connection_params (self w) in
  let run := with_client drv body w in
  let calls := driver_calls (events_since w run.2) in
  match on_connect drv (driver_calls (trace w)) kwargs with
  | Raise e => run.1 = Raise e /\ calls = [connector_connect kwargs]
  | Ok h =>
      exists mid,
        calls = connector_connect kwargs :: mid ++ [connection_close h] /\
        Forall (fun c => on_handle h (Drv c)) mid
  end.
Proof.
  intros Hbody kwargs run calls.
  apply (wp_elim _ _ _ (with_client_session_spec drv body w Hbody)).
Qed.

Lemma with_client_session_witness :
  let drv := failing_execute_driver in
  let w := new_world sample_client in
  let kwargs := connection_params (self w) in
  let run := with_client drv (execute_query drv "SELECT 1" None None) w in
  let calls := driver_calls (events_since w run.2) in
  match on_connect drv (driver_calls (trace w)) kwargs with
  | Raise e => run.1 = Raise e /\ calls = [connector_connect kwargs]
  | Ok h =>
      exists mid,
        calls = connector_connect kwargs :: mid ++ [connection_close h] /\
        Forall (fun c => on_handle h (Drv c)) mid
  end.
Proof.
  apply (with_client_session failing_execute_driver (list Row)
           (execute_query failing_execute_driver "SELECT 1" None None)
           (new_world sample_client)).
  intros h w1 Hconn. by apply execute_query_on_handle.
Defined.

(** *** The example script *)

Lemma index0_stays P results w : wp (index0 results) w (stays P (self w)).
Proof. destruct results; [by apply wp_raise | by apply wp_ret]. Qed.

Lemma item_stays P row column w : wp (item row column) w (stays P (self w)).
Proof. unfold item. destruct (row !! column); [by apply wp_ret | by apply wp_raise]. Qed.

Lemma print_stays P msg w : P (Out (print_line msg)) -> wp (print msg) w (stays P (self w)).
Proof. apply stays_record. Qed.

Lemma env_variables_body_on_handle drv h w :
  connection (self w) = Some h ->
  wp (env_variables_body drv) w (stays (on_handle h) (self w)).
Proof.
  intros Hconn. unfold env_variables_body.
  apply stays_bind; [by apply execute_query_on_handle |]. intros results w1 Hw1.
  apply stays_bind; [apply index0_stays |]. intros row w2 Hw2.
  apply stays_bind; [apply item_stays |]. intros cell w3 Hw3.
  apply stays_bind; [by apply print_stays |]. intros _ w4 Hw4. cbn zeta.
  apply stays_bind.
  { apply execute_query_on_handle. by rewrite Hw4, Hw3, Hw2, Hw1. }
  intros results' w5 Hw5.
  apply stays_bind; [apply index0_stays |]. intros row' w6 Hw6.
  apply stays_bind; [apply item_stays |]. intros cell' w7 Hw7.
  by apply print_stays.
Qed.

Lemma parameterized_body_on_handle drv h w :
  connection (self w) = Some h ->
  wp (parameterized_body drv) w (stays (on_handle h) (self w)).
Proof.
  intros Hconn. unfold parameterized_body.
  apply stays_bind; [by apply execute_query_on_handle |]. intros results w1 Hw1.
  apply stays_bind; [apply index0_stays |]. intros row w2 Hw2.
  repeat (apply stays_bind;
          [first [apply item_stays | by apply print_stays] | intros ? ? ?]).
  by apply print_stays.
Qed.

Lemma wp_try_finally {A : Type} (m : M A) (final : M unit) w Q :
  wp m w (fun rb wb db =>
    wp final wb (fun rx wf dx =>
      Q (match rx with Ok _ => rb | Raise e => Raise e end) wf (db ++ dx))) ->
  wp (try_finally m final) w Q.
Proof.
  unfold wp, try_finally. intros (db & Htb & H).
  destruct (m w) as [[a | e] wb]; cbn [fst snd] in *.
  all: destruct H as (dx & Htx & HQ); exists (db ++ dx); rewrite bind_run.
  all: destruct (final wb) as [[[] | e'] wf]; cbn [fst snd ret raise] in *;
    by rewrite Htx, Htb, app_assoc.
Qed.

(** A session opened from the environment, inside a [try] whose handler only
    prints: the two environment examples have this shape. *)
Lemma env_session_spec drv environ (body : M unit) (handler : Exn -> M unit) w :
  (forall h w1, connection (self w1) = Some h ->
                wp body w1 (stays (on_handle h) (self w1))) ->
  (forall msg w1,
     wp (handler (exception msg)) w1 (fun r _ d => r = Ok tt /\ driver_calls d = [])) ->
  wp (try_except
        (client <- lift (create_snowflake_client_from_env environ) ;;
         bind_client client ;;
         with_client drv body)
        handler)
     w (fun r _ d =>
          session_result drv environ (driver_calls (trace w)) r /\
          session_calls drv environ (driver_calls (trace w)) (driver_calls d)).
Proof.
  intros Hbody Hhandler. unfold session_calls, session_result.
  apply wp_try_except, wp_bind, wp_lift.
  destruct (create_snowflake_client_from_env environ) as [client | e].
  - apply wp_bind, wp_bind_client. cbn beta iota.
    eapply wp_mono; [by apply with_client_session_spec |].
    intros r w1 d1 H. cbn [self trace] in H. cbn [app].
    destruct (on_connect drv _ _) as [h | e].
    + destruct r as [[] | [msg | msg]].
      * split; [by left | done].
      * eapply wp_mono; [apply Hhandler |]. intros r w2 d2 [-> Hd2]; cbn beta.
        split; [by left |]. by rewrite driver_calls_app, Hd2, app_nil_r.
      * split; [right; by exists msg | done].
    + destruct H as [-> H]. destruct e as [msg | msg]; [| done].
      eapply wp_mono; [apply Hhandler |]. intros r w2 d2 [-> Hd2]; cbn beta.
      split; [done |]. by rewrite driver_calls_app, Hd2, app_nil_r.
  - cbn beta iota. destruct e as [msg | msg]; [| done].
    eapply wp_mono; [apply Hhandler |]. by intros r w2 d2 [-> Hd2].
Qed.

Lemma example_with_env_variables_spec drv environ w :
  wp (example_with_env_variables drv environ) w (fun r _ d =>
    session_result drv environ (driver_calls (trace w)) r /\
    session_calls drv environ (driver_calls (trace w)) (driver_calls d)).
Proof.
  unfold example_with_env_variables. apply wp_bind, wp_print. cbn beta iota.
  eapply wp_mono.
  - apply env_session_spec; [intros; by apply env_variables_body_on_handle |].
    intros e w1. unfold print. by wp_run.
  - intros r w' d H. cbn beta in H. cbn [trace] in H.
    autorewrite with history in H. exact H.
Qed.

Lemma example_parameterized_query_spec drv environ w :
  wp (example_parameterized_query drv environ) w (fun r _ d =>
    session_result drv environ (driver_calls (trace w)) r /\
    session_calls drv environ (driver_calls (trace w)) (driver_calls d)).
Proof.
  unfold example_parameterized_query. apply wp_bind, wp_print. cbn beta iota.
  eapply wp_mono.
  - apply env_session_spec; [intros; by apply parameterized_body_on_handle |].
    intros e w1. unfold print. by wp_run.
  - intros r w' d H. cbn beta in H. cbn [trace] in H.
    autorewrite with history in H. exact H.
Qed.

(** X15: the two examples that read the environment never leak a
    connection, whatever the driver does and whatever the environment holds,
    and no instance of [Exception] leaves them.  When a required variable is
    missing they make no driver call at all and return; when the connect is
    refused they make that call only, and return if the refusal is an
    [Exception]; otherwise the driver sees the connect, queries on the new
    handle, and the close of that handle as the last call: also when a query
    fails or a result has no row or lacks the column.  Their [except
    Exception] clause does not catch an exception such as a
    [KeyboardInterrupt]: that one leaves the example, after the close. *)
Theorem environment_examples_close_their_session drv environ w :
  let hist := driver_calls (trace w) in
  let run1 := example_with_env_variables drv environ w in
  let run2 := example_parameterized_query drv environ w in
  session_result drv environ hist run1.1 /\
  session_calls drv environ hist (driver_calls (events_since w run1.2)) /\
  session_result drv environ hist run2.1 /\
  session_calls drv environ hist (driver_calls (events_since w run2.2)).
Proof.
  intros hist run1 run2.
  pose proof (wp_elim _ _ _ (example_with_env_variables_spec drv environ w)) as H1.
  pose proof (wp_elim _ _ _ (example_parameterized_query_spec drv environ w)) as H2.
  by destruct H1, H2.
Qed.

(** An interrupt during the query of the first example: the connection is
    closed on the way out, and the interrupt leaves the example. *)
Example interrupted_example_raises :
  let run :=
    example_with_env_variables interrupted_query_driver sample_environ
      (new_world sample_client) in
  run.1 = Raise (base_exception "KeyboardInterrupt") /\
  last (driver_calls (trace run.2)) = Some (connection_close 1).
Proof. vm_compute. done. Qed.

Lemma driver_calls_nil : driver_calls [] = [].
Proof. reflexivity. Qed.

Lemma driver_calls_cons_call m t : driver_calls (Call m :: t) = driver_calls t.
Proof. reflexivity. Qed.

Lemma driver_calls_cons_out o t : driver_calls (Out o :: t) = driver_calls t.
Proof. reflexivity. Qed.

Lemma driver_calls_cons_drv c t : driver_calls (Drv c :: t) = c :: driver_calls t.
Proof. reflexivity. Qed.

Create Rewrite HintDb calls.
#[global] Hint Rewrite driver_calls_app driver_calls_nil driver_calls_cons_call
  driver_calls_cons_out driver_calls_cons_drv : calls.

(** Read the driver calls off a list of events that is known in part. *)
Ltac calls_simpl :=
  cbn [self trace connection connection_params];
  autorewrite with calls; cbn [app]; rewrite ?app_nil_r.

Lemma manual_queries_on_handle drv h w :
  connection (self w) = Some h ->
  wp (results <- execute_query drv "SELECT CURRENT_USER() as current_user" None None ;;
      row <- index0 results ;;
      cell <- item row "CURRENT_USER" ;;
      print ("Current user: " +:+ str_value cell))
     w (stays (on_handle h) (self w)).
Proof.
  intros Hconn.
  apply stays_bind; [by apply execute_query_on_handle |]. intros results w1 Hw1.
  apply stays_bind; [apply index0_stays |]. intros row w2 Hw2.
  apply stays_bind; [apply item_stays |]. intros cell w3 Hw3.
  by apply print_stays.
Qed.

(** The [try] block of [example_with_manual_config] with its handler:
    after it the client holds the handle of the connect when there is one. *)
Lemma manual_try_spec drv w :
  wp (try_except
        (connect drv ;;
         results <- execute_query drv "SELECT CURRENT_USER() as current_user" None None ;;
         row <- index0 results ;;
         cell <- item row "CURRENT_USER" ;;
         print ("Current user: " +:+ str_value cell))
        (fun e =>
           print ("Error: " +:+ str e) ;;
           print "Update the credentials in this example to test manual configuration."))
     w (fun r wb d =>
          let kwargs := connection_params (self w) in
          match on_connect drv (driver_calls (trace w)) kwargs with
          | Raise e =>
              r = after_except e /\
              connection (self wb) = connection (self w) /\
              driver_calls d = [connector_connect kwargs]
          | Ok h =>
              uncaught r /\
              connection (self wb) = Some h /\
              exists mid,
                driver_calls d = connector_connect kwargs :: mid /\
                Forall (fun c => on_handle h (Drv c)) mid
          end).
Proof.
  cbn zeta. apply wp_try_except, wp_bind.
  eapply wp_mono; [apply connect_spec |].
  intros r w1 d1 (_ & -> & H).
  destruct (on_connect drv _ _) as [h | e]; destruct H as [-> Hc]; cbn beta iota.
  - eapply wp_mono; [by apply (manual_queries_on_handle drv h) |].
    intros r w2 d2 [Hs Hd2]; cbn beta.
    assert (connection (self w2) = Some h) as Hc2 by (by rewrite Hs).
    destruct r as [[] | [msg | msg]].
    + split; [by left |]. split; [done |]. exists (driver_calls d2).
      split; [by calls_simpl | by apply Forall_driver_calls].
    + unfold print. wp_run. split; [by left |]. split; [done |].
      exists (driver_calls d2). split; [by calls_simpl | by apply Forall_driver_calls].
    + split; [right; by exists msg |]. split; [done |]. exists (driver_calls d2).
      split; [by calls_simpl | by apply Forall_driver_calls].
  - destruct e as [msg | msg]; [unfold print; wp_run |]; by calls_simpl.
Qed.

Lemma disconnect_closes drv w h hist :
  connection (self w) = Some h ->
  driver_calls (trace w) = hist ->
  wp (disconnect drv) w (fun r _ d =>
    driver_calls d = [connection_close h] /\
    r = match on_connection_close drv hist h with
        | Ok _ => Ok tt
        | Raise e => Raise e
        end).
Proof.
  intros Hconn <-. eapply wp_mono; [apply disconnect_spec |].
  intros r w' d (_ & _ & H). rewrite Hconn in H. destruct H as [Hd H].
  split; [done |]. by destruct (on_connection_close drv _ _); destruct H.
Qed.

Lemma example_with_manual_config_spec drv w :
  wp (example_with_manual_config drv) w (fun r _ d =>
    manual_session drv (driver_calls (trace w)) (driver_calls d) r).
Proof.
  unfold example_with_manual_config, manual_session.
  apply wp_bind, wp_print. cbn beta iota. apply wp_bind, wp_bind_client. cbn beta iota.
  apply wp_try_finally.
  eapply wp_mono; [apply wp_trace, manual_try_spec |].
  intros r wb db (Htb & H). cbn [self trace connection connection_params] in H, Htb.
  autorewrite with history in H.
  destruct (on_connect drv _ _) as [h | e].
  - destruct H as (Hr & Hc & mid & Hdb & Hmid).
    eapply wp_mono.
    { apply (disconnect_closes drv wb h
               (driver_calls (trace w)
                  ++ connector_connect (connection_params manual_client) :: mid));
        [done |].
      rewrite Htb. calls_simpl. by rewrite Hdb. }
    intros r' w' d' [Hd' ->]. cbn beta. exists mid. split; [| split; [done |]].
    + calls_simpl. by rewrite Hdb, Hd'.
    + by destruct (on_connection_close drv _ _).
  - destruct H as (-> & Hc & Hdb).
    change (connection manual_client) with (@None Handle) in Hc.
    eapply wp_mono; [apply disconnect_spec |].
    intros r' w' d' (_ & _ & H'). rewrite Hc in H'. destruct H' as (-> & _ & Hd').
    cbn beta. split; [| done]. calls_simpl. by rewrite Hdb, Hd'.
Qed.

(** X16: [example_with_manual_config] connects with the parameters written
    in the example, and whatever happens next (a refused connect, a failing
    query, a result without a row or without the column, an interrupt) it
    disconnects at the end.  If the connect was refused the driver sees
    nothing else, and the example returns when the refusal is an
    [Exception] and raises it when it is not.  Otherwise the driver sees
    queries on the new handle and, last, one close of that handle: when that
    close raises, its exception leaves the example; when it returns, the
    example returns, or raises an exception that its [except Exception]
    clause does not catch. *)
Theorem example_with_manual_config_disconnects drv w :
  let run := example_with_manual_config drv w in
  manual_session drv (driver_calls (trace w)) (driver_calls (events_since w run.2)) run.1.
Proof.
  intros run. apply (wp_elim _ _ _ (example_with_manual_config_spec drv w)).
Qed.

(** X17: what the script does to the driver, for every environment and
    every driver.  With a required variable missing it skips the examples
    that read the environment and runs the manual example alone.  Otherwise
    it runs the sessions one after the other: the two environment examples,
    each closing the connection it opened, then the manual example, and it
    yields what the manual example yields.  No example catches an exception
    that is no instance of [Exception]: when one leaves an environment
    example, the script stops there with that exception, and the driver has
    seen the sessions up to that one only. *)
Theorem main_sessions drv environ w :
  let run := main drv environ w in
  let hist := driver_calls (trace w) in
  let calls := driver_calls (events_since w run.2) in
  match missing_vars environ with
  | _ :: _ => manual_session drv hist calls run.1
  | [] =>
      exists s1 r1,
        session_calls drv environ hist s1 /\
        session_result drv environ hist r1 /\
        match r1 with
        | Raise e => calls = s1 /\ run.1 = Raise e
        | Ok _ =>
            exists s2 r2,
              session_calls drv environ (hist ++ s1) s2 /\
              session_result drv environ (hist ++ s1) r2 /\
              match r2 with
              | Raise e => calls = s1 ++ s2 /\ run.1 = Raise e
              | Ok _ =>
                  exists s3,
                    calls = s1 ++ s2 ++ s3 /\
                    manual_session drv (hist ++ s1 ++ s2) s3 run.1
              end
        end
  end.
Proof.
  intros run hist calls. subst run hist calls.
  apply (wp_elim (main drv environ) w (fun r _ d =>
    match missing_vars environ with
    | _ :: _ => manual_session drv (driver_calls (trace w)) (driver_calls d) r
    | [] =>
        exists s1 r1,
          session_calls drv environ (driver_calls (trace w)) s1 /\
          session_result drv environ (driver_calls (trace w)) r1 /\
          match r1 with
          | Raise e => driver_calls d = s1 /\ r = Raise e
          | Ok _ =>
              exists s2 r2,
                session_calls drv environ (driver_calls (trace w) ++ s1) s2 /\
                session_result drv environ (driver_calls (trace w) ++ s1) r2 /\
                match r2 with
                | Raise e => driver_calls d = s1 ++ s2 /\ r = Raise e
                | Ok _ =>
                    exists s3,
                      driver_calls d = s1 ++ s2 ++ s3 /\
                      manual_session drv (driver_calls (trace w) ++ s1 ++ s2) s3 r
                end
          end
    end)).
  unfold main, print. destruct (missing_vars environ) as [| var vars].
  - do 6 (wp_step; cbn beta iota).
    eapply wp_mono; [apply wp_trace, example_with_env_variables_spec |].
    intros r1 w1 d1 (Ht1 & Hr1 & Hs1).
    cbn [trace] in Ht1, Hr1, Hs1. autorewrite with history in Hr1, Hs1.
    destruct r1 as [[] | e1]; cbn beta iota.
    2: { exists (driver_calls d1), (Raise e1). by calls_simpl. }
    eapply wp_mono; [apply wp_trace, example_parameterized_query_spec |].
    intros r2 w2 d2 (Ht2 & Hr2 & Hs2).
    rewrite Ht1 in Hr2, Hs2. autorewrite with calls in Hr2, Hs2.
    rewrite !app_nil_r in Hr2, Hs2.
    destruct r2 as [[] | e2]; cbn beta iota.
    2: { exists (driver_calls d1), (Ok tt). split; [done |]. split; [done |].
         exists (driver_calls d2), (Raise e2). by calls_simpl. }
    eapply wp_mono; [apply example_with_manual_config_spec |].
    intros r w3 d3 Hs3. rewrite Ht2, Ht1 in Hs3.
    autorewrite with calls in Hs3. rewrite !app_nil_r, <- app_assoc in Hs3.
    exists (driver_calls d1), (Ok tt). split; [done |]. split; [done |].
    exists (driver_calls d2), (Ok tt). split; [done |]. split; [done |].
    exists (driver_calls d3). split; [| done]. calls_simpl. by rewrite <- app_assoc.
  - do 16 (wp_step; cbn beta iota).
    eapply wp_mono; [apply example_with_manual_config_spec |].
    intros r w' d H. cbn [trace] in H. autorewrite with history in H.
    calls_simpl. exact H.
Qed.

(** An interrupt during the first example stops the script: the later
    examples are not run. *)
Example main_interrupted :
  let run := main interrupted_query_driver sample_environ (new_world sample_client) in
  run.1 = Raise (base_exception "KeyboardInterrupt") /\
  driver_connects (trace run.2) = 1.
Proof. vm_compute. done. Qed.

(** With the environment empty, the script raises nothing on a driver that
    answers, and the driver sees one session: the manual example's. *)
Example main_on_empty_environment :
  let run := main answering_driver ∅ (new_world sample_client) in
  run.1 = Ok tt /\
  connection (self run.2) = None /\
  driver_calls (trace run.2) =
    [connector_connect (connection_params manual_client);
     connection_cursor 1;
     cursor_execute 2 "SELECT CURRENT_USER() as current_user" None;
     cursor_fetchall 2; cursor_close 2; connection_close 1].
Proof. vm_compute. done. Qed.

(** *** Parameters and results of a query *)

Lemma truthy_dict_empty {V : Type} : truthy_dict (V := V) (Some ∅) = None.
Proof. unfold truthy_dict. by rewrite decide_True by apply dom_empty_L. Qed.

(** X18: an empty mapping counts as an absent one.  [execute_query] with
    empty [params] runs the query without parameters, and with an empty
    [init] it does not call [initialize_context]: in both cases the run is
    the same as with [None]. *)
Theorem empty_mappings_as_absent drv query params init :
  execute_query drv query (Some ∅) init = execute_query drv query None init /\
  execute_query drv query params (Some ∅) = execute_query drv query params None.
Proof.
  unfold execute_query, execute_query_with, execute_and_fetch.
  by rewrite !truthy_dict_empty.
Qed.

(** X19: on a client that holds a handle, a query without [init] for which
    the driver answers every call returns the rows that [fetchall] gave,
    unchanged and in order.  The driver sees cursor, execute, fetchall and
    close, in this order; non-empty [params] are handed to [execute] as they
    are; the client object is untouched. *)
Theorem execute_query_returns_fetched_rows drv w query params h c rows :
  let sent := truthy_dict params in
  let opened := driver_calls (trace w) ++ [connection_cursor h] in
  let executed := opened ++ [cursor_execute c query sent] in
  let fetched := executed ++ [cursor_fetchall c] in
  connection (self w) = Some h ->
  on_cursor drv (driver_calls (trace w)) h = Ok c ->
  on_execute drv opened c query sent = Ok tt ->
  on_fetchall drv executed c = Ok rows ->
  on_cursor_close drv fetched c = Ok tt ->
  let run := execute_query drv query params None w in
  run.1 = Ok rows /\
  self run.2 = self w /\
  driver_calls (events_since w run.2) =
    [connection_cursor h; cursor_execute c query sent; cursor_fetchall c;
     cursor_close c].
Proof.
  intros sent opened executed fetched Hconn Hcur Hexec Hfetch Hclose run.
  assert (wp (execute_query drv query params None) w (fun r w' d =>
            r = Ok rows /\
            driver_calls d =
              [connection_cursor h; cursor_execute c query sent; cursor_fetchall c;
               cursor_close c])) as H.
  { unfold execute_query, execute_query_with.
    do 4 (wp_step; cbn beta iota). wp_simpl. rewrite Hconn.
    do 2 (wp_step; cbn beta iota). cbn [truthy_dict].
    do 2 (wp_step; cbn beta iota).
    eapply wp_mono.
    { apply (execute_and_fetch_cursor drv _ query params h c); [done |].
      cbn [trace]. by autorewrite with history. }
    intros r w' d H. cbn beta zeta in H. cbn [trace] in H.
    autorewrite with history in H. fold sent opened executed fetched in H.
    rewrite Hexec, Hfetch, Hclose in H. destruct H as [-> Hd].
    split; [done |]. by calls_simpl. }
  apply wp_elim in H. split; [apply H |]. split; [| apply H].
  by apply (wp_elim _ _ _ (execute_query_on_handle drv h w query params None Hconn)).
Qed.

Lemma execute_query_returns_fetched_rows_witness :
  let w := connected_world two_rows_driver in
  let run := execute_query two_rows_driver "SELECT A" None None w in
  run.1 = Ok two_rows /\
  self run.2 = self w /\
  driver_calls (events_since w run.2) =
    [connection_cursor 1; cursor_execute 2 "SELECT A" None; cursor_fetchall 2;
     cursor_close 2].
Proof.
  apply (execute_query_returns_fetched_rows two_rows_driver
           (connected_world two_rows_driver) "SELECT A" None 1 2 two_rows);
    reflexivity.
Defined.

(** *** [initialize_context] called on its own *)

Lemma statements_cons_call m t : statements (Call m :: t) = statements t.
Proof. reflexivity. Qed.

Lemma statements_cons_out o t : statements (Out o :: t) = statements t.
Proof. reflexivity. Qed.

Lemma statements_cons_connect kwargs t :
  statements (Drv (connector_connect kwargs) :: t) = statements t.
Proof. reflexivity. Qed.

Lemma driver_connects_cons_call m t : driver_connects (Call m :: t) = driver_connects t.
Proof. reflexivity. Qed.

Lemma driver_connects_cons_out o t : driver_connects (Out o :: t) = driver_connects t.
Proof. reflexivity. Qed.

Lemma driver_connects_cons_connect kwargs t :
  driver_connects (Drv (connector_connect kwargs) :: t) = S (driver_connects t).
Proof. reflexivity. Qed.

Create Rewrite HintDb counts.
#[global] Hint Rewrite statements_app statements_cons_call statements_cons_out
  statements_cons_connect driver_connects_app driver_connects_cons_call
  driver_connects_cons_out driver_connects_cons_connect
  statements_connect_log driver_connects_connect_log : counts.

Ltac counts_simpl :=
  autorewrite with counts;
  change (statements []) with (@nil string);
  change (driver_connects []) with 0;
  cbn [app]; rewrite ?app_nil_r.

Ltac count_connects w := destruct (connection (self w)); cbn beta iota; lia.

Lemma execute_query_no_init_lazily drv w query :
  wp (execute_query_no_init drv query None) w (issues_lazily w [query]).
Proof.
  unfold issues_lazily, lazy_connects.
  destruct (connection (self w)) as [h |] eqn:Hconn.
  - eapply wp_mono; [by eapply runs_execute_query_no_init |].
    intros r w' d (Hs & _ & Hd & Hp & Hok).
    repeat split; try done; [by apply Hok | intros _; by rewrite Hs, Hconn].
  - change (execute_query_no_init drv query None)
      with (execute_query drv query None None).
    eapply wp_mono; [by apply execute_query_unconnected |].
    intros r w' d (d' & -> & H). autorewrite with counts. cbn [app Nat.add].
    destruct (on_connect drv _ _) as [h | e].
    + destruct H as (Hs & _ & Hd & Hp & Hok). rewrite Hd.
      repeat split; try done; [by apply Hok | intros _; by rewrite Hs].
    + destruct H as (-> & -> & _). repeat split; try done. apply prefix_nil.
Qed.

Lemma connects_first_call kwargs m d :
  connects_first kwargs d -> connects_first kwargs (Call m :: d).
Proof. intros (pre & rest & -> & Hpre). by exists (Call m :: pre), rest. Qed.

Lemma connects_first_app_r kwargs d post :
  connects_first kwargs d -> connects_first kwargs (d ++ post).
Proof.
  intros (pre & rest & -> & Hpre). exists pre, (rest ++ post).
  by rewrite <- app_assoc.
Qed.

(** Once the connect has come first, nothing that follows changes it. *)
Lemma connects_first_bind {A B : Type} (m : M A) (k : A -> M B) w kwargs :
  wp m w (fun _ _ d => connects_first kwargs d) ->
  (forall a w1, wp (k a) w1 (fun _ _ _ => True)) ->
  wp (bind m k) w (fun _ _ d => connects_first kwargs d).
Proof.
  intros Hm Hk. apply wp_bind. eapply wp_mono; [apply Hm |].
  intros [a | e] w1 d1 H1; cbn beta iota; [| done].
  eapply wp_mono; [apply Hk |]. intros r w2 d2 _. by apply connects_first_app_r.
Qed.

Lemma connects_first_try_except {A : Type} (m : M A) (text : Exn -> string) w kwargs :
  wp m w (fun _ _ d => connects_first kwargs d) ->
  wp (try_except m (fun e => logger_error (text e) ;; raise e)) w
     (fun _ _ d => connects_first kwargs d).
Proof.
  intros Hm. apply wp_try_except. eapply wp_mono; [apply Hm |].
  intros [a | [e | e]] w1 d1 H1; cbn beta iota; [done | | done].
  wp_run. by apply connects_first_app_r.
Qed.

Lemma execute_query_connects_first drv w query params init :
  connection (self w) = None ->
  wp (execute_query drv query params init) w
     (fun _ _ d => connects_first (connection_params (self w)) d).
Proof.
  intros Hconn. eapply wp_mono; [by apply execute_query_unconnected |].
  intros r w' d (d' & -> & _).
  eexists [Call m_execute_query; Call m_connect], _. split; [reflexivity | done].
Qed.

Lemma use_query_connects_first drv w query (text : string) kwargs :
  connection (self w) = None ->
  connection_params (self w) = kwargs ->
  wp (execute_query_no_init drv query None ;; logger_info text) w
     (fun _ _ d => connects_first kwargs d).
Proof.
  intros Hconn <-. apply connects_first_bind.
  - by apply (execute_query_connects_first drv w query None None).
  - intros _ w1. by apply wp_record.
Qed.

Lemma initialize_context_connects_first drv w database schema :
  connection (self w) = None ->
  use_statements database schema <> [] ->
  wp (initialize_context drv database schema) w
     (fun _ _ d => connects_first (connection_params (self w)) d).
Proof.
  intros Hconn Hne. unfold initialize_context, initialize_context_with.
  unfold use_statements in Hne.
  apply wp_bind, wp_record. cbn beta iota.
  eapply wp_mono; [| intros r w' d H; apply connects_first_call, H].
  apply connects_first_try_except.
  destruct (truthy_str database) as [db |].
  - apply connects_first_bind; [by apply use_query_connects_first |].
    intros _ w1. destruct (truthy_str schema) as [sc |]; [| by apply wp_ret].
    apply wp_bind. eapply wp_mono; [apply wp_true_execute_query_no_init |].
    intros [rows | e] w2 d2 _; cbn beta iota; [by wp_run | done].
  - apply wp_bind, wp_ret. cbn beta iota.
    destruct (truthy_str schema) as [sc |]; [| done].
    by apply use_query_connects_first.
Qed.

Lemma initialize_context_lazily drv w database schema :
  wp (initialize_context drv database schema) w (fun r _ d =>
    statements d `prefix_of` use_statements database schema /\
    (is_ok r = true -> statements d = use_statements database schema) /\
    driver_connects d = lazy_connects w (use_statements database schema)).
Proof.
  unfold initialize_context, initialize_context_with, use_statements.
  apply wp_bind, wp_record. cbn beta iota. apply wp_try_except, wp_bind.
  destruct (truthy_str database) as [db |].
  - apply wp_bind. eapply wp_mono; [apply execute_query_no_init_lazily |].
    intros [rows | e] w1 d1 (Hp1 & Hok1 & Hc1); cbn beta iota.
    + destruct (Hok1 eq_refl) as [Hs1 Hconn1]. specialize (Hconn1 ltac:(done)).
      wp_step. cbn beta iota.
      destruct (truthy_str schema) as [sc |].
      * apply wp_bind. eapply wp_mono; [apply execute_query_no_init_lazily |].
        intros [rows' | e] w2 d2 (Hp2 & Hok2 & Hc2); cbn beta iota.
        all: unfold lazy_connects in Hc1, Hc2 |- *; cbn [self] in Hc1, Hc2 |- *.
        all: destruct (connection (self w1)); [| done].
        -- wp_run. destruct (Hok2 eq_refl) as [Hs2 _].
           counts_simpl. rewrite Hs1, Hs2, Hc1, Hc2, ?app_nil_r.
           repeat split; try done. count_connects w.
        -- destruct e as [e | e]; wp_run; counts_simpl;
             rewrite Hs1, Hc1, Hc2, ?app_nil_r; (repeat split; try done);
             first [by apply (prefix_app [_] _ [_]) | count_connects w].
      * wp_run. counts_simpl. rewrite Hs1, Hc1, ?app_nil_r.
        unfold lazy_connects. cbn [self].
        repeat split; try done. count_connects w.
    + destruct e as [e | e]; wp_run; counts_simpl; unfold lazy_connects in Hc1 |- *;
        cbn [self] in Hc1 |- *; rewrite Hc1;
        (split; [by apply (prefix_app_r _ [_]) | split; [done |]]); count_connects w.
  - wp_step. cbn beta iota.
    destruct (truthy_str schema) as [sc |].
    + apply wp_bind. eapply wp_mono; [apply execute_query_no_init_lazily |].
      intros [rows' | e] w2 d2 (Hp2 & Hok2 & Hc2); cbn beta iota.
      all: unfold lazy_connects in Hc2 |- *; cbn [self] in Hc2 |- *.
      * wp_run. destruct (Hok2 eq_refl) as [Hs2 _].
        counts_simpl. rewrite Hs2, Hc2, ?app_nil_r.
        repeat split; try done; try count_connects w.
      * destruct e as [e | e]; wp_run; counts_simpl; rewrite Hc2, ?app_nil_r;
          repeat split; try done; try count_connects w.
    + wp_run. counts_simpl. unfold lazy_connects. by destruct (connection (self w)).
Qed.

(** X20: [initialize_context] called on its own issues USE DATABASE when
    the database is given and not empty, then USE SCHEMA when the schema is
    given and not empty: the first few of them when it raises, all of them
    when it returns.  It goes through [execute_query], so a client without a
    handle connects, once, before the first statement: the driver's connect
    is the first call that the driver sees.  With nothing to set, or with a
    handle, the driver's connect is not called. *)
Theorem initialize_context_direct drv w database schema :
  let run := initialize_context drv database schema w in
  let d := events_since w run.2 in
  let stmts := use_statements database schema in
  statements d `prefix_of` stmts /\
  (is_ok run.1 = true -> statements d = stmts) /\
  driver_connects d = lazy_connects w stmts /\
  (connection (self w) = None -> stmts <> [] ->
   connects_first (connection_params (self w)) d).
Proof.
  intros run d stmts. subst run d stmts.
  destruct (wp_elim _ _ _ (initialize_context_lazily drv w database schema))
    as (Hprefix & Hall & Hcount).
  repeat split; try done. intros Hconn Hne.
  by apply (wp_elim _ _ _
              (initialize_context_connects_first drv w database schema Hconn Hne)).
Qed.

(** Called on a new client with a database to set, [initialize_context]
    connects first. *)
Example initialize_context_connects :
  let run :=
    initialize_context answering_driver (Some "D") None (new_world sample_client) in
  run.1 = Ok tt /\
  driver_calls (trace run.2) =
    [connector_connect (connection_params sample_client); connection_cursor 1;
     cursor_execute 2 "USE DATABASE D" None; cursor_fetchall 2; cursor_close 2].
Proof. vm_compute. done. Qed.
